(** * Clementine global search widget: result aggregation and merging

    A shallow embedding of [src/globalsearch/globalsearchwidget.cpp]
    (class [GlobalSearchWidget]) and the properties of its result
    buffers, merge step and request tables.

    Conventions of the embedding:
    - a [QString] is a [string]; its code units are the characters;
    - C++ [int] values (request ids, arrival counter, enum values) are [Z];
    - the two [QStandardItemModel] objects made by the constructor are
      named by [ModelPtr], their two sort proxies by [ProxyPtr]; the
      member pointers ([front_model_], [back_model_], [current_model_],
      ...) hold such names, so that [qSwap] and pointer assignment alias
      exactly as in the source;
    - the search engine is outside the class: the requests sent to it are
      appended to a log, and the id (or cached pixmap) it answers with is
      an argument of the slot that asks for it. *)

From stdpp Require Import base numbers list strings gmap.
From Stdlib Require Import Ascii.
From Stdlib Require String.
From stdpp Require Import sorting.

Local Open Scope Z_scope.

(** ** Data model *)

Definition QString := string.

(** Modelled from the spec: the enum [globalsearch::Type] is declared in
    searchprovider.h, which is absent; the spec lists its three kinds
    (track / album / stream). *)
Inductive Type_ := Type_Track | Type_Album | Type_Stream.

Global Instance Type_eq_dec : EqDecision Type_.
Proof. solve_decision. Defined.

(** The fields of the [Song] metadata read by the widget; [url] is the
    string form [url().toString()]. *)
Record Song := mkSong {
  title : QString;
  album : QString;
  artist : QString;
  url : QString;
}.

Record SearchProvider := mkProvider {
  id : QString;
  name : QString;
}.

(** [SearchProvider::Result]; [match_quality_] is the enum value as an
    integer. *)
Record Result := mkResult {
  provider_ : SearchProvider;
  type_ : Type_;
  match_quality_ : Z;
  metadata_ : Song;
}.

Definition ResultList := list Result.

Inductive QPixmap := PixmapData (d : N).

(** A [QStandardItem] with the data roles the widget stores in it. *)
Record Item := mkItem {
  Role_PrimaryResult : Result;
  Role_AllResults : ResultList;
  Role_OrderArrived : Z;
  DecorationRole : option QPixmap;
  Role_LazyLoadingArt : bool;
}.

Definition setAllResults (l : ResultList) (it : Item) : Item :=
  mkItem (Role_PrimaryResult it) l (Role_OrderArrived it)
         (DecorationRole it) (Role_LazyLoadingArt it).

Definition setDecoration (p : QPixmap) (it : Item) : Item :=
  mkItem (Role_PrimaryResult it) (Role_AllResults it) (Role_OrderArrived it)
         (Some p) (Role_LazyLoadingArt it).

Definition setLazyLoadingArt (it : Item) : Item :=
  mkItem (Role_PrimaryResult it) (Role_AllResults it) (Role_OrderArrived it)
         (DecorationRole it) true.

Inductive CombineAction := CannotCombine | LeftPreferred | RightPreferred.

Global Instance CombineAction_eq_dec : EqDecision CombineAction.
Proof. solve_decision. Defined.

(** ** Strings *)

Definition code (c : ascii) : Z := Z.of_N (N_of_ascii c).

Section Trim.

(** [QChar::isSpace] is a table of the Qt library. *)
Variable isSpace : ascii -> bool.

Fixpoint trim_start (s : string) : string :=
  match s with
  | EmptyString => EmptyString
  | String c s' => if isSpace c then trim_start s' else s
  end.

Fixpoint trim_end (s : string) : string :=
  match s with
  | EmptyString => EmptyString
  | String c s' =>
      match trim_end s' with
      | EmptyString => if isSpace c then EmptyString else String c EmptyString
      | t => String c t
      end
  end.

(** [QString::trimmed]: whitespace removed from both ends. *)
Definition trimmed (s : QString) : QString := trim_end (trim_start s).

End Trim.

(** [QStringList::indexOf]: position of the first equal entry, -1 when
    there is none. *)
Fixpoint indexOf_from (l : list QString) (x : QString) (i : Z) : Z :=
  match l with
  | [] => -1
  | y :: l' => if String.eqb y x then i else indexOf_from l' x (i + 1)
  end.

Definition indexOf (l : list QString) (x : QString) : Z := indexOf_from l x 0.

Section Combine.

(** Qt's case folding of one code unit is a table of the Qt library. *)
Variable foldCase : ascii -> ascii.

(** [QString::compare(a, b, Qt::CaseInsensitive)]: the difference of the
    first pair of folded code units that differ, else the order of the
    lengths. *)
Fixpoint compare_CaseInsensitive (a b : QString) : Z :=
  match a, b with
  | EmptyString, EmptyString => 0
  | EmptyString, String _ _ => -1
  | String _ _, EmptyString => 1
  | String x a', String y b' =>
      let diff := code (foldCase x) - code (foldCase y) in
      if diff =? 0 then compare_CaseInsensitive a' b' else diff
  end.

(** The macro [StringsDiffer(field)]. *)
Definition StringsDiffer (field : Song -> QString) (r1 r2 : Result) : bool :=
  negb (compare_CaseInsensitive (field (metadata_ r1)) (field (metadata_ r2)) =? 0).

Variable provider_order : list QString.

(** [GlobalSearchWidget::CanCombineResults] on the two primary results
    read from its index arguments.  The [Type_Track] case falls through
    into the [Type_Album] case. *)
Definition CanCombineResults (r1 r2 : Result) : CombineAction :=
  if negb (match_quality_ r1 =? match_quality_ r2)
     || negb (bool_decide (type_ r1 = type_ r2))
  then CannotCombine
  else
    let album_case :=
      StringsDiffer album r1 r2 || StringsDiffer artist r1 r2 in
    let differ :=
      match type_ r1 with
      | Type_Track => if StringsDiffer title r1 r2 then true else album_case
      | Type_Album => album_case
      | Type_Stream => StringsDiffer url r1 r2
      end in
    if differ then CannotCombine
    else
      let p1 := indexOf provider_order (id (provider_ r1)) in
      let p2 := indexOf provider_order (id (provider_ r2)) in
      if p2 >? p1 then RightPreferred else LeftPreferred.

End Combine.

(** ** The sort proxy

    [GlobalSearchSortModel] (a [QSortFilterProxyModel] with dynamic
    sorting and no filter) shows the rows of its source model ordered by
    its [lessThan]; the comparison itself is declared outside this file.
    Every source row is inserted after the rows that do not compare
    greater, so rows that compare equal keep their source order. *)

Section SortProxy.

Variable lessThan : Item -> Item -> bool.

Fixpoint insert_sorted (x : nat * Item) (l : list (nat * Item))
  : list (nat * Item) :=
  match l with
  | [] => [x]
  | y :: l' =>
      if lessThan (snd x) (snd y) then x :: l else y :: insert_sorted x l'
  end.

(** The proxy's rows in display order, each with its source row. *)
Definition proxy_to_source (rows : list Item) : list (nat * Item) :=
  fold_left (fun acc x => insert_sorted x acc) (imap pair rows) [].

Definition mapToSource (rows : list Item) (row : nat) : option nat :=
  fst <$> proxy_to_source rows !! row.

Definition mapFromSource (rows : list Item) (source_row : nat) : option nat :=
  fst <$> list_find (fun p => fst p = source_row) (proxy_to_source rows).

(** [index.data(role)] through the proxy. *)
Definition proxy_data (rows : list Item) (row : nat) : option Item :=
  snd <$> proxy_to_source rows !! row.

End SortProxy.

(** [QModelIndex::sibling(row, 0)] for an index of a list model with
    [rowCount] rows: invalid when the index is, or when the row is out of
    range.  An index into a given proxy is its row, [None] when invalid. *)
Definition sibling (rowCount : nat) (index : option nat) (row : nat)
  : option nat :=
  match index with
  | None => None
  | Some _ => if bool_decide (row < rowCount)%nat then Some row else None
  end.

(** The rows visited by [for (int i = row - 1; i >= 0; --i)]. *)
Fixpoint rows_before (row : nat) : list nat :=
  match row with
  | O => []
  | S i => i :: rows_before i
  end.

(** The list [candidates] built in [AddResults]. *)
Definition candidates (rowCount : nat) (my_proxy_index : option nat)
  : list (option nat) :=
  match my_proxy_index with
  | None => [None]
  | Some row =>
      sibling rowCount my_proxy_index (row + 1)
        :: map (sibling rowCount my_proxy_index) (rows_before row)
  end.

Section Merge.

Variable foldCase : ascii -> ascii.
Variable lessThan : Item -> Item -> bool.
Variable provider_order : list QString.

(** [CanCombineResults(left, right)] on two valid indexes of the proxy:
    the primary results are read through the proxy.  A row without data
    does not occur for a valid index. *)
Definition CanCombineResults_index (rows : list Item) (left right : nat)
  : CombineAction :=
  match proxy_data lessThan rows left, proxy_data lessThan rows right with
  | Some l, Some r =>
      CanCombineResults foldCase provider_order
        (Role_PrimaryResult l) (Role_PrimaryResult r)
  | _, _ => CannotCombine
  end.

(** [GlobalSearchWidget::CombineResults(superior, inferior)] on the rows
    of [current_model_]: both items are fetched first, the superior
    item's list is extended, then the inferior item's row is removed.
    The indexes passed by [AddResults] are valid, so both items exist
    (lemma [CombineResults_items] below). *)
Definition CombineResults (rows : list Item) (superior inferior : nat)
  : list Item :=
  match mapToSource lessThan rows superior,
        mapToSource lessThan rows inferior with
  | Some s_sup, Some s_inf =>
      match rows !! s_sup, rows !! s_inf with
      | Some superior_item, Some inferior_item =>
          let superior_results :=
            Role_AllResults superior_item ++ Role_AllResults inferior_item in
          delete s_inf
            (<[s_sup := setAllResults superior_results superior_item]> rows)
      | _, _ => rows
      end
  | _, _ => rows
  end.

(** The [foreach (index, candidates)] loop of [AddResults]: invalid
    indexes and candidates that cannot be combined are skipped; the first
    candidate that can be combined is merged and the loop is left. *)
Fixpoint combine_scan (rows : list Item) (my_proxy_index : nat)
  (cands : list (option nat)) : list Item :=
  match cands with
  | [] => rows
  | None :: rest => combine_scan rows my_proxy_index rest
  | Some index :: rest =>
      match CanCombineResults_index rows my_proxy_index index with
      | CannotCombine => combine_scan rows my_proxy_index rest
      | LeftPreferred => CombineResults rows my_proxy_index index
      | RightPreferred => CombineResults rows index my_proxy_index
      end
  end.

(** The [if (combine_identical_results_)] block for the item that was
    just appended as the last source row.  With an invalid
    [my_proxy_index] the only candidate is invalid. *)
Definition combine_new_item (rows : list Item) : list Item :=
  let my_proxy_index := mapFromSource lessThan rows (length rows - 1)%nat in
  match my_proxy_index with
  | None => rows
  | Some row =>
      combine_scan rows row (candidates (length rows) my_proxy_index)
  end.

End Merge.

(** ** The widget *)

Inductive ModelPtr := ModelA | ModelB.
Inductive ProxyPtr := ProxyA | ProxyB.

Global Instance ModelPtr_eq_dec : EqDecision ModelPtr.
Proof. solve_decision. Defined.

Global Instance ProxyPtr_eq_dec : EqDecision ProxyPtr.
Proof. solve_decision. Defined.

(** [setSourceModel] is called once per proxy, in the constructor. *)
Definition sourceModel (p : ProxyPtr) : ModelPtr :=
  match p with
  | ProxyA => ModelA
  | ProxyB => ModelB
  end.

(** The actions that can trigger [LoadTracks]; a double click passes
    [NULL], here [None]. *)
Inductive QAction :=
  add_ | add_and_play_ | add_and_queue_ | replace_ | replace_and_play_.

(** Requests sent to the [GlobalSearch] engine. *)
Inductive EngineCall :=
| CancelSearch (search_id : Z)
| SearchAsync (query : QString)
| LoadArtAsync (result : Result)
| LoadTracksAsync (result : Result).

Record GlobalSearchTooltip := mkTooltip {
  tooltip_isVisible : bool;
  ActiveResultIndex : Z;
}.

Record QListView := mkView {
  view_model : ProxyPtr;
  view_isVisible : bool;
}.

Record GlobalSearchWidget := mkWidget {
  engine_ : list EngineCall;
  last_id_ : Z;
  order_arrived_counter_ : Z;
  modelA : list Item;
  modelB : list Item;
  front_model_ : ModelPtr;
  back_model_ : ModelPtr;
  current_model_ : ModelPtr;
  front_proxy_ : ProxyPtr;
  back_proxy_ : ProxyPtr;
  current_proxy_ : ProxyPtr;
  view_ : QListView;
  tooltip_ : option GlobalSearchTooltip;
  swap_models_timer_ : bool;
  art_requests_ : gmap Z (ModelPtr * nat);
  track_requests_ : gmap Z (option QAction);
  combine_identical_results_ : bool;
  provider_order_ : list QString;
}.

(** The constructor; the two arguments are the values [ReloadSettings]
    reads. [swap_models_timer_] holds whether the single-shot timer is
    running. *)
Definition GlobalSearchWidget_new (combine : bool) (order : list QString)
  : GlobalSearchWidget :=
  {| engine_ := []; last_id_ := 0; order_arrived_counter_ := 0;
     modelA := []; modelB := [];
     front_model_ := ModelA; back_model_ := ModelB; current_model_ := ModelA;
     front_proxy_ := ProxyA; back_proxy_ := ProxyB; current_proxy_ := ProxyA;
     view_ := mkView ProxyA false; tooltip_ := None;
     swap_models_timer_ := false;
     art_requests_ := ∅; track_requests_ := ∅;
     combine_identical_results_ := combine; provider_order_ := order |}.

(** The rows of the model a pointer designates. *)
Definition rowsOf (w : GlobalSearchWidget) (m : ModelPtr) : list Item :=
  match m with
  | ModelA => modelA w
  | ModelB => modelB w
  end.

Definition set_rows (m : ModelPtr) (rows : list Item) (w : GlobalSearchWidget)
  : GlobalSearchWidget :=
  {| engine_ := engine_ w; last_id_ := last_id_ w;
     order_arrived_counter_ := order_arrived_counter_ w;
     modelA := match m with ModelA => rows | ModelB => modelA w end;
     modelB := match m with ModelA => modelB w | ModelB => rows end;
     front_model_ := front_model_ w; back_model_ := back_model_ w;
     current_model_ := current_model_ w;
     front_proxy_ := front_proxy_ w; back_proxy_ := back_proxy_ w;
     current_proxy_ := current_proxy_ w;
     view_ := view_ w; tooltip_ := tooltip_ w;
     swap_models_timer_ := swap_models_timer_ w;
     art_requests_ := art_requests_ w; track_requests_ := track_requests_ w;
     combine_identical_results_ := combine_identical_results_ w;
     provider_order_ := provider_order_ w |}.

Definition set_popup (v : QListView) (t : option GlobalSearchTooltip)
  (w : GlobalSearchWidget) : GlobalSearchWidget :=
  {| engine_ := engine_ w; last_id_ := last_id_ w;
     order_arrived_counter_ := order_arrived_counter_ w;
     modelA := modelA w; modelB := modelB w;
     front_model_ := front_model_ w; back_model_ := back_model_ w;
     current_model_ := current_model_ w;
     front_proxy_ := front_proxy_ w; back_proxy_ := back_proxy_ w;
     current_proxy_ := current_proxy_ w;
     view_ := v; tooltip_ := t;
     swap_models_timer_ := swap_models_timer_ w;
     art_requests_ := art_requests_ w; track_requests_ := track_requests_ w;
     combine_identical_results_ := combine_identical_results_ w;
     provider_order_ := provider_order_ w |}.

Definition set_requests (calls : list EngineCall)
  (art : gmap Z (ModelPtr * nat)) (track : gmap Z (option QAction))
  (w : GlobalSearchWidget) : GlobalSearchWidget :=
  {| engine_ := calls; last_id_ := last_id_ w;
     order_arrived_counter_ := order_arrived_counter_ w;
     modelA := modelA w; modelB := modelB w;
     front_model_ := front_model_ w; back_model_ := back_model_ w;
     current_model_ := current_model_ w;
     front_proxy_ := front_proxy_ w; back_proxy_ := back_proxy_ w;
     current_proxy_ := current_proxy_ w;
     view_ := view_ w; tooltip_ := tooltip_ w;
     swap_models_timer_ := swap_models_timer_ w;
     art_requests_ := art; track_requests_ := track;
     combine_identical_results_ := combine_identical_results_ w;
     provider_order_ := provider_order_ w |}.

Definition set_order_arrived_counter (n : Z) (w : GlobalSearchWidget)
  : GlobalSearchWidget :=
  {| engine_ := engine_ w; last_id_ := last_id_ w;
     order_arrived_counter_ := n;
     modelA := modelA w; modelB := modelB w;
     front_model_ := front_model_ w; back_model_ := back_model_ w;
     current_model_ := current_model_ w;
     front_proxy_ := front_proxy_ w; back_proxy_ := back_proxy_ w;
     current_proxy_ := current_proxy_ w;
     view_ := view_ w; tooltip_ := tooltip_ w;
     swap_models_timer_ := swap_models_timer_ w;
     art_requests_ := art_requests_ w; track_requests_ := track_requests_ w;
     combine_identical_results_ := combine_identical_results_ w;
     provider_order_ := provider_order_ w |}.

(** [GlobalSearchWidget::HidePopup]. *)
Definition HidePopup (w : GlobalSearchWidget) : GlobalSearchWidget :=
  set_popup (mkView (view_model (view_ w)) false)
    (match tooltip_ w with
     | Some t => Some (mkTooltip false (ActiveResultIndex t))
     | None => None
     end) w.

(** [GlobalSearchWidget::RepositionPopup]; the geometry given to the view
    is not part of the state. *)
Definition RepositionPopup (w : GlobalSearchWidget) : GlobalSearchWidget :=
  if bool_decide (length (rowsOf w (front_model_ w)) = 0%nat) then HidePopup w
  else if negb (view_isVisible (view_ w))
       then set_popup (mkView (view_model (view_ w)) true) (tooltip_ w) w
       else w.

Section Search.

Variable isSpace : ascii -> bool.

(** [GlobalSearchWidget::TextEdited]; [search_id] is what
    [engine_->SearchAsync] returns. *)
Definition TextEdited (text : QString) (search_id : Z)
  (w : GlobalSearchWidget) : GlobalSearchWidget :=
  let trimmed_text := trimmed isSpace text in
  if bool_decide (String.length trimmed_text < 3)%nat then RepositionPopup w
  else
    let w1 := set_rows (back_model_ w) [] w in
    {| engine_ := engine_ w1 ++ [CancelSearch (last_id_ w1);
                                 SearchAsync trimmed_text];
       last_id_ := search_id;
       order_arrived_counter_ := 0;
       modelA := modelA w1; modelB := modelB w1;
       front_model_ := front_model_ w1; back_model_ := back_model_ w1;
       current_model_ := back_model_ w1;
       front_proxy_ := front_proxy_ w1; back_proxy_ := back_proxy_ w1;
       current_proxy_ := back_proxy_ w1;
       view_ := view_ w1; tooltip_ := tooltip_ w1;
       swap_models_timer_ := true;
       art_requests_ := art_requests_ w1;
       track_requests_ := track_requests_ w1;
       combine_identical_results_ := combine_identical_results_ w1;
       provider_order_ := provider_order_ w1 |}.

End Search.

(** [GlobalSearchWidget::SwapModels]. *)
Definition SwapModels (w : GlobalSearchWidget) : GlobalSearchWidget :=
  RepositionPopup
    {| engine_ := engine_ w; last_id_ := last_id_ w;
       order_arrived_counter_ := order_arrived_counter_ w;
       modelA := modelA w; modelB := modelB w;
       front_model_ := back_model_ w; back_model_ := front_model_ w;
       current_model_ := current_model_ w;
       front_proxy_ := back_proxy_ w; back_proxy_ := front_proxy_ w;
       current_proxy_ := current_proxy_ w;
       view_ := mkView (back_proxy_ w) (view_isVisible (view_ w));
       tooltip_ := tooltip_ w;
       swap_models_timer_ := swap_models_timer_ w;
       art_requests_ := ∅;
       track_requests_ := track_requests_ w;
       combine_identical_results_ := combine_identical_results_ w;
       provider_order_ := provider_order_ w |}.

(** The expiry of [swap_models_timer_], whose [timeout()] signal is
    connected to [SwapModels].  The timer is single-shot: it expires only
    while it is running, and stops when it does. *)
Definition swap_models_timer_timeout (w : GlobalSearchWidget)
  : GlobalSearchWidget :=
  if swap_models_timer_ w then
    SwapModels
      {| engine_ := engine_ w; last_id_ := last_id_ w;
         order_arrived_counter_ := order_arrived_counter_ w;
         modelA := modelA w; modelB := modelB w;
         front_model_ := front_model_ w; back_model_ := back_model_ w;
         current_model_ := current_model_ w;
         front_proxy_ := front_proxy_ w; back_proxy_ := back_proxy_ w;
         current_proxy_ := current_proxy_ w;
         view_ := view_ w; tooltip_ := tooltip_ w;
         swap_models_timer_ := false;
         art_requests_ := art_requests_ w;
         track_requests_ := track_requests_ w;
         combine_identical_results_ := combine_identical_results_ w;
         provider_order_ := provider_order_ w |}
  else w.

(** The six member pointers to the models and proxies. *)
Definition pointers (w : GlobalSearchWidget)
  : ModelPtr * ModelPtr * ModelPtr * (ProxyPtr * ProxyPtr * ProxyPtr) :=
  (front_model_ w, back_model_ w, current_model_ w,
   (front_proxy_ w, back_proxy_ w, current_proxy_ w)).

(** Each proxy pointer designates the proxy of the model the matching
    model pointer designates, and front and back are different models. *)
Definition pointers_paired (w : GlobalSearchWidget) : Prop :=
  sourceModel (front_proxy_ w) = front_model_ w
  /\ sourceModel (back_proxy_ w) = back_model_ w
  /\ sourceModel (current_proxy_ w) = current_model_ w
  /\ front_model_ w <> back_model_ w.

(** The value a C++ [int] holds after an arithmetic result [z]: 32 bits,
    two's complement, so that [++] at 2147483647 gives -2147483648. *)
Definition int_wrap (z : Z) : Z :=
  (z + 2147483648) mod 4294967296 - 2147483648.

Section Slots.

Variable foldCase : ascii -> ascii.
Variable lessThan : Item -> Item -> bool.

(** [engine_->FindCachedPixmap(result, &pixmap)]: the pixmap when the
    call returns true. *)
Variable FindCachedPixmap : Result -> option QPixmap.

(** The body of the [foreach (result, results)] loop of [AddResults].
    [mapFromSource] of an index that does not belong to the proxy's
    source model is the invalid index. *)
Definition add_result (w : GlobalSearchWidget) (result : Result)
  : GlobalSearchWidget :=
  let item :=
    {| Role_PrimaryResult := result;
       Role_AllResults := [result];
       Role_OrderArrived := order_arrived_counter_ w;
       DecorationRole := FindCachedPixmap result;
       Role_LazyLoadingArt := false |} in
  let rows := rowsOf w (current_model_ w) ++ [item] in
  if combine_identical_results_ w then
    if bool_decide (sourceModel (current_proxy_ w) = current_model_ w) then
      set_rows (current_model_ w)
        (combine_new_item foldCase lessThan (provider_order_ w) rows) w
    else set_rows (current_model_ w) rows w
  else set_rows (current_model_ w) rows w.

(** [GlobalSearchWidget::AddResults].  [order_arrived_counter_] is an
    [int]: its [++] is [int_wrap] of the sum. *)
Definition AddResults (id : Z) (results : ResultList) (w : GlobalSearchWidget)
  : GlobalSearchWidget :=
  if bool_decide (id ≠ last_id_ w) then w
  else
    let w1 := fold_left add_result results w in
    RepositionPopup
      (set_order_arrived_counter (int_wrap (order_arrived_counter_ w1 + 1)) w1).

(** [GlobalSearchWidget::LazyLoadArt]; an index of a proxy is the proxy
    and a row, [art_id] is what [engine_->LoadArtAsync] returns.  The
    result is [None] where [itemFromIndex] yields no item of
    [front_model_] to write to. *)
Definition LazyLoadArt (proxy_index : option (ProxyPtr * nat)) (art_id : Z)
  (w : GlobalSearchWidget) : option GlobalSearchWidget :=
  match proxy_index with
  | None => Some w
  | Some (p, row) =>
      let rows := rowsOf w (sourceModel p) in
      match proxy_to_source lessThan rows !! row with
      | None => Some w
      | Some (source_row, item) =>
          if Role_LazyLoadingArt item then Some w
          else if bool_decide (p ≠ front_proxy_ w) then Some w
          else if bool_decide (sourceModel p ≠ front_model_ w) then None
          else
            Some (set_requests
                    (engine_ w ++ [LoadArtAsync (Role_PrimaryResult item)])
                    (<[art_id := (sourceModel p, source_row)]> (art_requests_ w))
                    (track_requests_ w)
                    (set_rows (front_model_ w)
                       (<[source_row := setLazyLoadingArt item]> rows) w))
      end
  end.

(** [GlobalSearchWidget::ArtLoaded]. *)
Definition ArtLoaded (id : Z) (pixmap : QPixmap) (w : GlobalSearchWidget)
  : option GlobalSearchWidget :=
  match art_requests_ w !! id with
  | None => Some w
  | Some (m, row) =>
      if bool_decide (m ≠ front_model_ w) then None
      else
        match rowsOf w (front_model_ w) !! row with
        | None => None
        | Some item =>
            Some (set_requests (engine_ w) (delete id (art_requests_ w))
                    (track_requests_ w)
                    (set_rows (front_model_ w)
                       (<[row := setDecoration pixmap item]>
                          (rowsOf w (front_model_ w))) w))
        end
  end.

(** [index.data(Role_AllResults).value<ResultList>()] for an index of
    proxy [p]; no data converts to the empty list. *)
Definition data_AllResults (w : GlobalSearchWidget) (p : ProxyPtr) (row : nat)
  : ResultList :=
  match proxy_data lessThan (rowsOf w (sourceModel p)) row with
  | Some item => Role_AllResults item
  | None => []
  end.

(** [front_proxy_->index(0, 0)]. *)
Definition front_index (w : GlobalSearchWidget) : option (ProxyPtr * nat) :=
  if bool_decide (0 < length (rowsOf w (sourceModel (front_proxy_ w))))%nat
  then Some (front_proxy_ w, 0%nat) else None.

(** The row [LoadTracks] works on: the view's current index, or the first
    row of the front proxy when the view has none. *)
Definition LoadTracks_index (currentIndex : option (ProxyPtr * nat))
  (w : GlobalSearchWidget) : option (ProxyPtr * nat) :=
  match currentIndex with
  | Some index => Some index
  | None => front_index w
  end.

(** The alternative [LoadTracks] picks: 0, or the tooltip's when it is
    showing. *)
Definition LoadTracks_result_index (w : GlobalSearchWidget) : Z :=
  match tooltip_ w with
  | Some t => if tooltip_isVisible t then ActiveResultIndex t else 0
  | None => 0
  end.

(** [GlobalSearchWidget::LoadTracks]; [currentIndex] is what
    [view_->currentIndex()] returns and [tracks_id] what
    [engine_->LoadTracksAsync] returns. *)
Definition LoadTracks (trigger : option QAction)
  (currentIndex : option (ProxyPtr * nat)) (tracks_id : Z)
  (w : GlobalSearchWidget) : GlobalSearchWidget :=
  match LoadTracks_index currentIndex w with
  | None => w
  | Some (p, row) =>
      let result_index := LoadTracks_result_index w in
      let results := data_AllResults w p row in
      if (result_index <? 0) || (result_index >=? Z.of_nat (length results))
      then w
      else
        match results !! Z.to_nat result_index with
        | Some result =>
            set_requests (engine_ w ++ [LoadTracksAsync result])
              (art_requests_ w)
              (<[tracks_id := trigger]> (track_requests_ w)) w
        | None => w
        end
  end.

End Slots.

(** ** The specification's wording, for comparison with the code *)

Section SpecWords.

Variable foldCase : ascii -> ascii.

(** Two strings are equal case-insensitively when they are equal once
    every code unit is folded. *)
Definition equal_CaseInsensitive (a b : QString) : Prop :=
  map foldCase (String.list_ascii_of_string a)
  = map foldCase (String.list_ascii_of_string b).

Definition fields_equal (field : Song -> QString) (r1 r2 : Result) : Prop :=
  equal_CaseInsensitive (field (metadata_ r1)) (field (metadata_ r2)).

(** The equivalence test of the merge engine as the specification words
    it: same match quality, same kind, and the fields of that kind equal
    case-insensitively. *)
Definition equivalent (r1 r2 : Result) : Prop :=
  match_quality_ r1 = match_quality_ r2
  /\ type_ r1 = type_ r2
  /\ match type_ r1 with
     | Type_Track =>
         fields_equal title r1 r2 /\ fields_equal album r1 r2
         /\ fields_equal artist r1 r2
     | Type_Album => fields_equal album r1 r2 /\ fields_equal artist r1 r2
     | Type_Stream => fields_equal url r1 r2
     end.

(** The candidates as the specification words them: the row right after
    the new record when there is one, then the rows before it from the
    nearest to the farthest. *)
Definition candidates_in_words (rowCount row : nat) : list nat :=
  (if bool_decide (row + 1 < rowCount)%nat then [(row + 1)%nat] else [])
    ++ reverse (seq 0 row).

Variable lessThan : Item -> Item -> bool.
Variable provider_order : list QString.

(** One merge of the record at proxy row [my] with candidate [c], the
    superior side chosen as the switch in [AddResults] does. *)
Definition merge_with (rows : list Item) (my c : nat) : list Item :=
  match CanCombineResults_index foldCase lessThan provider_order rows my c with
  | CannotCombine => rows
  | LeftPreferred => CombineResults lessThan rows my c
  | RightPreferred => CombineResults lessThan rows c my
  end.

Definition combinable (rows : list Item) (my c : nat) : Prop :=
  CanCombineResults_index foldCase lessThan provider_order rows my c
  <> CannotCombine.

Global Instance combinable_dec (rows : list Item) (my c : nat) :
  Decision (combinable rows my c).
Proof. unfold combinable. apply _. Defined.

(** All the alternatives held by a buffer. *)
Definition all_alternatives (rows : list Item) : list Result :=
  concat (map Role_AllResults rows).

End SpecWords.

(** ** Concrete instances used in the examples *)

(** The white space of Qt 4 among the code units below 256. *)
Definition latin1_isSpace (c : ascii) : bool :=
  let n := code c in
  (n =? 32) || ((9 <=? n) && (n <=? 13)) || (n =? 160).

(** ASCII case folding. *)
Definition ascii_foldCase (c : ascii) : ascii :=
  let n := N_of_ascii c in
  if ((65 <=? n) && (n <=? 90))%N then ascii_of_N (n + 32) else c.

(** Modelled from the spec: [GlobalSearchSortModel::lessThan] lives in
    globalsearchsortmodel.cpp, which is absent; the spec describes a
    match-quality ordering with ties broken by arrival order. *)
Definition lessThan_quality_arrival (a b : Item) : bool :=
  let qa := match_quality_ (Role_PrimaryResult a) in
  let qb := match_quality_ (Role_PrimaryResult b) in
  if qa <? qb then true
  else if qb <? qa then false
  else Role_OrderArrived a <? Role_OrderArrived b.

Definition no_cached_pixmap (_ : Result) : option QPixmap := None.

Definition library : SearchProvider := mkProvider "library" "Library".
Definition lastfm : SearchProvider := mkProvider "lastfm" "Last.fm".

Definition money : Song :=
  mkSong "Money" "The Dark Side of the Moon" "Pink Floyd" "file:///money.mp3".

Definition money_shouting : Song :=
  mkSong "MONEY" "the dark side of the moon" "PINK FLOYD" "lastfm://money".

Definition time_ : Song :=
  mkSong "Time" "The Dark Side of the Moon" "Pink Floyd" "file:///time.mp3".

Definition money_library : Result := mkResult library Type_Track 0 money.
Definition time_library : Result := mkResult library Type_Track 0 time_.
Definition money_lastfm : Result := mkResult lastfm Type_Track 0 money_shouting.

(** A widget in which the query "dark side" started search 7. *)
Definition searching (order : list QString) : GlobalSearchWidget :=
  TextEdited latin1_isSpace "dark side" 7 (GlobalSearchWidget_new true order).

Definition AddResults_example : Z -> ResultList -> GlobalSearchWidget -> GlobalSearchWidget :=
  AddResults ascii_foldCase lessThan_quality_arrival no_cached_pixmap.

(** The same widget after the library's batch arrived and the timer
    expired: one result is showing. *)
Definition showing (order : list QString) : GlobalSearchWidget :=
  swap_models_timer_timeout
    (AddResults_example 7 [money_library] (searching order)).

(** The item [AddResults] makes for a result of the batch with the given
    arrival number, without a cached pixmap. *)
Definition item_of (result : Result) (arrived : Z) : Item :=
  {| Role_PrimaryResult := result;
     Role_AllResults := [result];
     Role_OrderArrived := arrived;
     DecorationRole := None;
     Role_LazyLoadingArt := false |}.

(** ** Track requests and their answers *)

Global Instance QAction_eq_dec : EqDecision QAction.
Proof. solve_decision. Defined.

(** The flags of [MimeData] that [TracksLoaded] writes. *)
Record MimeData := mkMimeData {
  from_doubleclick_ : bool;
  override_user_settings_ : bool;
  play_now_ : bool;
  enqueue_now_ : bool;
  clear_first_ : bool;
}.

(** The chain of tests on [trigger] in [TracksLoaded]; [add_] sets
    nothing. *)
Definition mark_mime_data (trigger : option QAction) (m : MimeData) : MimeData :=
  match trigger with
  | None =>
      mkMimeData true (override_user_settings_ m) (play_now_ m)
        (enqueue_now_ m) (clear_first_ m)
  | Some add_and_play_ =>
      mkMimeData (from_doubleclick_ m) true true (enqueue_now_ m) (clear_first_ m)
  | Some add_and_queue_ =>
      mkMimeData (from_doubleclick_ m) (override_user_settings_ m) (play_now_ m)
        true (clear_first_ m)
  | Some replace_ =>
      mkMimeData (from_doubleclick_ m) (override_user_settings_ m) (play_now_ m)
        (enqueue_now_ m) true
  | Some replace_and_play_ =>
      mkMimeData (from_doubleclick_ m) true true (enqueue_now_ m) true
  | Some add_ => m
  end.

(** [GlobalSearchWidget::TracksLoaded]; [mime_data] is [None] for a null
    pointer.  The second component is the argument of the emitted
    [AddToPlaylist] signal, [None] when nothing is emitted. *)
Definition TracksLoaded (id : Z) (mime_data : option MimeData)
  (w : GlobalSearchWidget) : GlobalSearchWidget * option MimeData :=
  match track_requests_ w !! id with
  | None => (w, None)
  | Some trigger =>
      let w' :=
        set_requests (engine_ w) (art_requests_ w)
          (delete id (track_requests_ w)) w in
      match mime_data with
      | None => (w', None)
      | Some m => (w', Some (mark_mime_data trigger m))
      end
  end.

Section Activation.

Variable lessThan : Item -> Item -> bool.

(** The slots that start [LoadTracks]. *)
Definition ResultDoubleClicked := LoadTracks lessThan None.
Definition AddCurrent := LoadTracks lessThan (Some add_).
Definition AddAndPlayCurrent := LoadTracks lessThan (Some add_and_play_).
Definition AddAndQueueCurrent := LoadTracks lessThan (Some add_and_queue_).
Definition ReplaceCurrent := LoadTracks lessThan (Some replace_).
Definition ReplaceAndPlayCurrent := LoadTracks lessThan (Some replace_and_play_).

End Activation.

(** ** Settings *)

(** The two keys of the settings group [ReloadSettings] reads; [None] is
    a key that is not stored. *)
Record Settings := mkSettings {
  stored_combine_identical_results : option bool;
  stored_provider_order : option (list QString);
}.

(** [GlobalSearchWidget::ReloadSettings]. *)
Definition ReloadSettings (s : Settings) (w : GlobalSearchWidget)
  : GlobalSearchWidget :=
  {| engine_ := engine_ w; last_id_ := last_id_ w;
     order_arrived_counter_ := order_arrived_counter_ w;
     modelA := modelA w; modelB := modelB w;
     front_model_ := front_model_ w; back_model_ := back_model_ w;
     current_model_ := current_model_ w;
     front_proxy_ := front_proxy_ w; back_proxy_ := back_proxy_ w;
     current_proxy_ := current_proxy_ w;
     view_ := view_ w; tooltip_ := tooltip_ w;
     swap_models_timer_ := swap_models_timer_ w;
     art_requests_ := art_requests_ w; track_requests_ := track_requests_ w;
     combine_identical_results_ :=
       default true (stored_combine_identical_results s);
     provider_order_ := default ["library"] (stored_provider_order s) |}.

(** ** The provider buttons *)

(** [QString::operator<]: the order of the code units, without folding. *)
Definition QString_less (a b : QString) : bool :=
  compare_CaseInsensitive (fun c => c) a b <? 0.

(** An item of [ui_->provider_layout]: the tool button made for a
    provider, with its checked state, or an item without a widget (the
    spacer).  A button stands for the provider [provider_buttons_] maps it
    to. *)
Inductive LayoutItem :=
| ProviderButton (provider : SearchProvider) (checked : bool)
| LayoutSpacer.

Record ProviderBar := mkProviderBar {
  provider_buttons_ : list SearchProvider;
  provider_layout : list LayoutItem;
  error_log : list SearchProvider;
}.

(** The [for] loop of [ProviderAdded]: the first position holding a
    button whose provider's name is greater. *)
Fixpoint insertion_point (new_name : QString) (items : list LayoutItem)
  (i : nat) : option nat :=
  match items with
  | [] => None
  | LayoutSpacer :: rest => insertion_point new_name rest (S i)
  | ProviderButton p _ :: rest =>
      if QString_less new_name (name p) then Some i
      else insertion_point new_name rest (S i)
  end.

(** [QBoxLayout::insertWidget]: a negative index appends. *)
Definition insertWidget (index : Z) (item : LayoutItem)
  (layout : list LayoutItem) : list LayoutItem :=
  if index <? 0 then layout ++ [item]
  else take (Z.to_nat index) layout ++ item :: drop (Z.to_nat index) layout.

Global Instance SearchProvider_eq_dec : EqDecision SearchProvider.
Proof. solve_decision. Defined.

Definition is_button_of (provider : SearchProvider) (item : LayoutItem) : bool :=
  match item with
  | ProviderButton p _ => bool_decide (p = provider)
  | LayoutSpacer => false
  end.

Section Providers.

(** [engine_->is_provider_enabled]. *)
Variable is_provider_enabled : SearchProvider -> bool.

(** [GlobalSearchWidget::ProviderAdded]. *)
Definition ProviderAdded (provider : SearchProvider) (bar : ProviderBar)
  : ProviderBar :=
  if bool_decide (provider ∈ provider_buttons_ bar) then
    mkProviderBar (provider_buttons_ bar) (provider_layout bar)
      (error_log bar ++ [provider])
  else
    let button := ProviderButton provider (is_provider_enabled provider) in
    let layout := provider_layout bar in
    let layout' :=
      match insertion_point (name provider) layout 0 with
      | Some i => insertWidget (Z.of_nat i) button layout
      | None => insertWidget (Z.of_nat (length layout) - 1) button layout
      end in
    mkProviderBar (provider_buttons_ bar ++ [provider]) layout' (error_log bar).

(** The loop of [Init] over [engine_->providers()]. *)
Definition Init (providers : list SearchProvider) (bar : ProviderBar)
  : ProviderBar :=
  fold_left (fun b p => ProviderAdded p b) providers bar.

End Providers.

(** [GlobalSearchWidget::ProviderRemoved]: deleting the button takes it
    out of the layout. *)
Definition ProviderRemoved (provider : SearchProvider) (bar : ProviderBar)
  : ProviderBar :=
  if bool_decide (provider ∈ provider_buttons_ bar) then
    mkProviderBar
      (filter (fun p => p <> provider) (provider_buttons_ bar))
      (filter (fun item => is_button_of provider item = false)
         (provider_layout bar))
      (error_log bar)
  else
    mkProviderBar (provider_buttons_ bar) (provider_layout bar)
      (error_log bar ++ [provider]).

(** The names on the buttons of a layout, in layout order. *)
Definition layout_names (layout : list LayoutItem) : list QString :=
  omap (fun item => match item with
                    | ProviderButton p _ => Some (name p)
                    | LayoutSpacer => None
                    end) layout.

Definition layout_providers (layout : list LayoutItem) : list SearchProvider :=
  omap (fun item => match item with
                    | ProviderButton p _ => Some p
                    | LayoutSpacer => None
                    end) layout.

(** No name is followed, anywhere later, by a smaller one. *)
Definition names_sorted (names : list QString) : Prop :=
  StronglySorted (fun a b => QString_less b a = false) names.

(** A provider bar as the slots keep it: one button per registered
    provider, the spacer last, the buttons in the order of their names. *)
Definition bar_ok (bar : ProviderBar) : Prop :=
  NoDup (provider_buttons_ bar)
  /\ layout_providers (provider_layout bar) ≡ₚ provider_buttons_ bar
  /\ last (provider_layout bar) = Some LayoutSpacer
  /\ names_sorted (layout_names (provider_layout bar)).

(** ** The loop of [AddResults] on the rows of the current model *)

Section AddRows.

Variable foldCase : ascii -> ascii.
Variable lessThan : Item -> Item -> bool.
Variable FindCachedPixmap : Result -> option QPixmap.

(** The item [AddResults] makes for one result. *)
Definition new_item (w : GlobalSearchWidget) (result : Result) : Item :=
  {| Role_PrimaryResult := result;
     Role_AllResults := [result];
     Role_OrderArrived := order_arrived_counter_ w;
     DecorationRole := FindCachedPixmap result;
     Role_LazyLoadingArt := false |}.

(** What one round of the loop does to the rows of [current_model_]; the
    widget supplies the arrival counter, the settings and the pointers,
    none of which the loop changes. *)
Definition add_row (w : GlobalSearchWidget) (rows : list Item) (result : Result)
  : list Item :=
  let rows1 := rows ++ [new_item w result] in
  if combine_identical_results_ w
     && bool_decide (sourceModel (current_proxy_ w) = current_model_ w)
  then combine_new_item foldCase lessThan (provider_order_ w) rows1
  else rows1.

End AddRows.

(** ** Well-formed records and reachable widgets *)

(** [GlobalSearchWidget::UpdateTooltip].  [current] is what
    [view_->selectionModel()->currentIndex()] returns, [None] for an
    invalid index.  The tooltip is hidden with the popup; otherwise it is
    created if there is none yet, given the alternatives of the current
    row and shown.  Of the tooltip the widget reads [isVisible] and
    [ActiveResultIndex] only: [active] is the alternative the tooltip
    reports as active once [SetResults] and [ShowAt] have run. *)
Definition UpdateTooltip (current : option (ProxyPtr * nat)) (active : Z)
  (w : GlobalSearchWidget) : GlobalSearchWidget :=
  if negb (view_isVisible (view_ w)) then
    set_popup (view_ w)
      (match tooltip_ w with
       | Some t => Some (mkTooltip false (ActiveResultIndex t))
       | None => None
       end) w
  else
    match current with
    | None => w
    | Some _ => set_popup (view_ w) (Some (mkTooltip true active)) w
    end.

(** What happens while one search runs: a batch of results arrives, or
    the cutover timer expires. *)
Inductive SearchEvent :=
| BatchArrives (id : Z) (results : ResultList)
| TimerExpires.

Section Reachable.

Variable isSpace : ascii -> bool.
Variable foldCase : ascii -> ascii.
Variable lessThan : Item -> Item -> bool.

(** A record lists its primary result first, and all its alternatives
    pass the equivalence test against the primary. *)
Definition item_ok (it : Item) : Prop :=
  head (Role_AllResults it) = Some (Role_PrimaryResult it)
  /\ Forall (equivalent foldCase (Role_PrimaryResult it)) (Role_AllResults it).

(** What every slot keeps: the proxy pointers follow the model pointers,
    the view shows the front proxy, pending art requests point into the
    front model, and every record is well formed. *)
Definition base_ok (w : GlobalSearchWidget) : Prop :=
  pointers_paired w
  /\ view_model (view_ w) = front_proxy_ w
  /\ (forall id m row, art_requests_ w !! id = Some (m, row) -> m = front_model_ w)
  /\ (forall m, Forall item_ok (rowsOf w m)).

(** A popup that is showing has rows to show. *)
Definition popup_ok (w : GlobalSearchWidget) : Prop :=
  view_isVisible (view_ w) = true -> rowsOf w (front_model_ w) <> [].

Definition widget_ok (w : GlobalSearchWidget) : Prop :=
  base_ok w /\ popup_ok w.

(** The slot a [SearchEvent] runs. *)
Definition search_event (FindCachedPixmap : Result -> option QPixmap)
  (w : GlobalSearchWidget) (e : SearchEvent) : GlobalSearchWidget :=
  match e with
  | BatchArrives id results =>
      AddResults foldCase lessThan FindCachedPixmap id results w
  | TimerExpires => swap_models_timer_timeout w
  end.

(** The widgets that the constructor and the modelled slots produce. *)
Inductive reachable : GlobalSearchWidget -> Prop :=
| reach_new combine order :
    reachable (GlobalSearchWidget_new combine order)
| reach_ReloadSettings s w :
    reachable w -> reachable (ReloadSettings s w)
| reach_TextEdited text search_id w :
    reachable w -> reachable (TextEdited isSpace text search_id w)
| reach_timeout w :
    reachable w -> reachable (swap_models_timer_timeout w)
| reach_AddResults FindCachedPixmap id results w :
    reachable w ->
    reachable (AddResults foldCase lessThan FindCachedPixmap id results w)
| reach_LazyLoadArt proxy_index art_id w w' :
    reachable w ->
    LazyLoadArt lessThan proxy_index art_id w = Some w' -> reachable w'
| reach_ArtLoaded id pixmap w w' :
    reachable w -> ArtLoaded id pixmap w = Some w' -> reachable w'
| reach_LoadTracks trigger currentIndex tracks_id w :
    reachable w ->
    reachable (LoadTracks lessThan trigger currentIndex tracks_id w)
| reach_TracksLoaded id mime_data w :
    reachable w -> reachable (fst (TracksLoaded id mime_data w))
| reach_HidePopup w :
    reachable w -> reachable (HidePopup w)
| reach_RepositionPopup w :
    reachable w -> reachable (RepositionPopup w)
| reach_UpdateTooltip current active w :
    reachable w -> reachable (UpdateTooltip current active w).

End Reachable.

(** ** More instances used in the examples *)

Definition spotify : SearchProvider := mkProvider "spotify" "Spotify".

Definition always_enabled (_ : SearchProvider) : bool := true.

(** A provider bar holding only the spacer. *)
Definition empty_bar : ProviderBar := mkProviderBar [] [LayoutSpacer] [].

Definition plain_mime_data : MimeData := mkMimeData false false false false false.

(** * Properties *)

(** ** Case-insensitive comparison and the equivalence test *)

Section CombineFacts.

Variable foldCase : ascii -> ascii.

Lemma code_inj (x y : ascii) : code x = code y -> x = y.
Proof.
  unfold code. intros H. apply N2Z.inj in H.
  rewrite <- (ascii_N_embedding x), <- (ascii_N_embedding y). by rewrite H.
Qed.

Lemma compare_CaseInsensitive_zero (a b : QString) :
  compare_CaseInsensitive foldCase a b = 0
  <-> equal_CaseInsensitive foldCase a b.
Proof.
  unfold equal_CaseInsensitive. revert b.
  induction a as [|x a IH]; intros [|y b]; simpl; try (split; done).
  destruct (Z.eqb_spec (code (foldCase x) - code (foldCase y)) 0) as [E|E].
  - assert (foldCase x = foldCase y) as -> by (apply code_inj; lia).
    rewrite IH. split; [by intros -> | by intros [= ->]].
  - split; [done |]. intros [= Hxy _]. rewrite Hxy in E. lia.
Qed.

Lemma StringsDiffer_false (field : Song -> QString) (r1 r2 : Result) :
  StringsDiffer foldCase field r1 r2 = false
  <-> fields_equal foldCase field r1 r2.
Proof.
  unfold StringsDiffer, fields_equal.
  rewrite <- compare_CaseInsensitive_zero, negb_false_iff.
  apply Z.eqb_eq.
Qed.

Lemma StringsDiffer_true (field : Song -> QString) (r1 r2 : Result) :
  StringsDiffer foldCase field r1 r2 = true
  <-> ~ fields_equal foldCase field r1 r2.
Proof.
  rewrite <- StringsDiffer_false. destruct (StringsDiffer _ _ _ _); split; done.
Qed.

(** Once two results pass the equivalence test, the action depends only on
    the two positions in the provider order. *)
Lemma CanCombineResults_equivalent (order : list QString) (r1 r2 : Result) :
  equivalent foldCase r1 r2 ->
  CanCombineResults foldCase order r1 r2
  = if indexOf order (id (provider_ r2)) >? indexOf order (id (provider_ r1))
    then RightPreferred else LeftPreferred.
Proof.
  intros (Hq & Ht & Hf). unfold CanCombineResults.
  rewrite Hq, Z.eqb_refl, (bool_decide_eq_true_2 _ Ht). simpl.
  destruct (type_ r1); repeat rewrite <- StringsDiffer_false in Hf.
  - destruct Hf as (-> & -> & ->). done.
  - destruct Hf as (-> & ->). done.
  - rewrite Hf. done.
Qed.

Lemma CanCombineResults_combinable (order : list QString) (r1 r2 : Result) :
  CanCombineResults foldCase order r1 r2 <> CannotCombine ->
  equivalent foldCase r1 r2.
Proof.
  unfold CanCombineResults, equivalent. intros H.
  destruct (Z.eqb_spec (match_quality_ r1) (match_quality_ r2)) as [Hq|];
    [|done].
  destruct (decide (type_ r1 = type_ r2)) as [Ht|Ht];
    [rewrite (bool_decide_eq_true_2 _ Ht) in H
    | by rewrite (bool_decide_eq_false_2 _ Ht) in H].
  simpl in H. split; [done|]. split; [done|].
  destruct (type_ r1); rewrite <- !StringsDiffer_false.
  - destruct (StringsDiffer foldCase title r1 r2); [done|].
    destruct (StringsDiffer foldCase album r1 r2); [done|].
    destruct (StringsDiffer foldCase artist r1 r2); done.
  - destruct (StringsDiffer foldCase album r1 r2); [done|].
    destruct (StringsDiffer foldCase artist r1 r2); done.
  - destruct (StringsDiffer foldCase url r1 r2); done.
Qed.

(** C2. Two results are judged combinable by [CanCombineResults] exactly
    when they have the same match quality, the same kind, and the fields
    of that kind (track: title, album, artist; album: album, artist;
    stream: URL string) are equal case-insensitively; any mismatch gives
    [CannotCombine]. *)
Theorem CanCombineResults_iff_equivalent (order : list QString) (r1 r2 : Result) :
  CanCombineResults foldCase order r1 r2 <> CannotCombine
  <-> equivalent foldCase r1 r2.
Proof.
  split.
  - apply CanCombineResults_combinable.
  - intros H. rewrite (CanCombineResults_equivalent order r1 r2 H).
    by destruct (_ >? _).
Qed.

End CombineFacts.

(** ** The sort proxy is a permutation of the source rows *)

Section SortFacts.

Variable lessThan : Item -> Item -> bool.

Lemma insert_sorted_perm (x : nat * Item) (l : list (nat * Item)) :
  insert_sorted lessThan x l ≡ₚ x :: l.
Proof.
  induction l as [|y l IH]; simpl; [done|].
  destruct (lessThan x.2 y.2); [done|].
  rewrite IH. apply Permutation_swap.
Qed.

Lemma fold_insert_sorted_perm (l acc : list (nat * Item)) :
  fold_left (fun acc x => insert_sorted lessThan x acc) l acc ≡ₚ acc ++ l.
Proof.
  revert acc. induction l as [|x l IH]; intros acc; simpl.
  - by rewrite app_nil_r.
  - rewrite IH, insert_sorted_perm. simpl. apply Permutation_middle.
Qed.

Lemma proxy_to_source_perm (rows : list Item) :
  proxy_to_source lessThan rows ≡ₚ imap pair rows.
Proof. unfold proxy_to_source. by rewrite fold_insert_sorted_perm. Qed.

Lemma proxy_to_source_length (rows : list Item) :
  length (proxy_to_source lessThan rows) = length rows.
Proof. by rewrite proxy_to_source_perm, length_imap. Qed.

Lemma fst_imap_pair {A} (f : nat -> nat) (l : list A) :
  (imap (fun i x => (f i, x)) l).*1 = f <$> seq 0 (length l).
Proof.
  revert f. induction l as [|x l IH]; intros f; simpl; [done|].
  f_equal. rewrite <- fmap_S_seq, <- list_fmap_compose. apply (IH (f ∘ S)).
Qed.

Lemma proxy_to_source_NoDup (rows : list Item) :
  NoDup (proxy_to_source lessThan rows).*1.
Proof.
  rewrite proxy_to_source_perm.
  change (imap pair rows) with (imap (fun i x => ((fun j : nat => j) i, x)) rows).
  rewrite fst_imap_pair, list_fmap_id.
  apply NoDup_seq.
Qed.

(** A row of the proxy shows the item stored at its source row. *)
Lemma proxy_to_source_lookup (rows : list Item) (row s : nat) (it : Item) :
  proxy_to_source lessThan rows !! row = Some (s, it) -> rows !! s = Some it.
Proof.
  intros H. apply list_elem_of_lookup_2 in H.
  rewrite proxy_to_source_perm in H.
  apply elem_of_lookup_imap in H as (i & x & [= -> ->] & Hx). done.
Qed.

(** Different rows of the proxy show different source rows. *)
Lemma proxy_to_source_inj (rows : list Item) (r1 r2 s1 s2 : nat) (i1 i2 : Item) :
  proxy_to_source lessThan rows !! r1 = Some (s1, i1) ->
  proxy_to_source lessThan rows !! r2 = Some (s2, i2) ->
  r1 <> r2 -> s1 <> s2.
Proof.
  intros H1 H2 Hne ->. apply Hne.
  apply (NoDup_lookup _ r1 r2 s2 (proxy_to_source_NoDup rows));
    rewrite list_lookup_fmap; [by rewrite H1 | by rewrite H2].
Qed.

Lemma mapFromSource_Some (rows : list Item) (s row : nat) :
  mapFromSource lessThan rows s = Some row ->
  exists it, proxy_to_source lessThan rows !! row = Some (s, it)
             /\ rows !! s = Some it /\ (row < length rows)%nat.
Proof.
  unfold mapFromSource. intros H.
  destruct (list_find _ _) as [[i [s' it]]|] eqn:E; [|done].
  simpl in H. injection H as ->.
  apply list_find_Some in E as (Hl & Hs & _). simpl in Hs. subst s'.
  exists it. split; [done|]. split; [by eapply proxy_to_source_lookup|].
  rewrite <- proxy_to_source_length. by eapply lookup_lt_Some.
Qed.


End SortFacts.

(** ** Merging two records *)

Section MergeFacts.

Variable lessThan : Item -> Item -> bool.

Lemma all_alternatives_app (l1 l2 : list Item) :
  all_alternatives (l1 ++ l2) = all_alternatives l1 ++ all_alternatives l2.
Proof. unfold all_alternatives. by rewrite map_app, concat_app. Qed.

Lemma all_alternatives_cons (x : Item) (l : list Item) :
  all_alternatives (x :: l) = Role_AllResults x ++ all_alternatives l.
Proof. done. Qed.

Lemma all_alternatives_perm (l1 l2 : list Item) :
  l1 ≡ₚ l2 -> all_alternatives l1 ≡ₚ all_alternatives l2.
Proof.
  induction 1 as [|x l l' _ IH|x y l|l l' l'' _ IH1 _ IH2].
  - done.
  - rewrite !all_alternatives_cons. by rewrite IH.
  - rewrite !all_alternatives_cons, !app_assoc.
    by rewrite (Permutation_app_comm (Role_AllResults y)).
  - by rewrite IH1.
Qed.

(** With valid indexes both items are found, and the merge is an update
    of the superior source row followed by the removal of the inferior
    one. *)
Lemma CombineResults_items (rows : list Item) (superior inferior : nat)
  (s_sup s_inf : nat) (superior_item inferior_item : Item) :
  proxy_to_source lessThan rows !! superior = Some (s_sup, superior_item) ->
  proxy_to_source lessThan rows !! inferior = Some (s_inf, inferior_item) ->
  CombineResults lessThan rows superior inferior
  = delete s_inf
      (<[s_sup := setAllResults
                    (Role_AllResults superior_item ++ Role_AllResults inferior_item)
                    superior_item]> rows).
Proof.
  intros Hs Hi. unfold CombineResults, mapToSource. rewrite Hs, Hi. simpl.
  by rewrite (proxy_to_source_lookup _ _ _ _ _ Hs),
             (proxy_to_source_lookup _ _ _ _ _ Hi).
Qed.


(** C6. Merging the inferior record into the superior one leaves the
    superior record with its previous alternatives followed by all the
    alternatives of the inferior record, removes the inferior record from
    the buffer, and keeps the multiset of all alternatives held by the
    buffer. *)
Theorem CombineResults_keeps_alternatives (rows : list Item)
  (superior inferior s_sup s_inf : nat) (superior_item inferior_item : Item) :
  superior <> inferior ->
  proxy_to_source lessThan rows !! superior = Some (s_sup, superior_item) ->
  proxy_to_source lessThan rows !! inferior = Some (s_inf, inferior_item) ->
  let merged :=
    setAllResults
      (Role_AllResults superior_item ++ Role_AllResults inferior_item)
      superior_item in
  let rows' := CombineResults lessThan rows superior inferior in
  rows !! s_sup = Some superior_item
  /\ rows !! s_inf = Some inferior_item
  /\ s_sup <> s_inf
  /\ rows' = delete s_inf (<[s_sup := merged]> rows)
  /\ rows' !! (if bool_decide (s_sup < s_inf)%nat then s_sup else (s_sup - 1)%nat)
     = Some merged
  /\ Role_AllResults merged
     = Role_AllResults superior_item ++ Role_AllResults inferior_item
  /\ Role_PrimaryResult merged = Role_PrimaryResult superior_item
  /\ (length rows' + 1)%nat = length rows
  /\ all_alternatives rows' ≡ₚ all_alternatives rows.
Proof.
  intros Hne Hs Hi merged rows'.
  pose proof (proxy_to_source_lookup _ _ _ _ _ Hs) as Hsup.
  pose proof (proxy_to_source_lookup _ _ _ _ _ Hi) as Hinf.
  pose proof (proxy_to_source_inj _ _ _ _ _ _ _ _ Hs Hi Hne) as Hsne.
  assert (rows' = delete s_inf (<[s_sup := merged]> rows)) as Hrows'
    by (by apply CombineResults_items).
  pose proof (lookup_lt_Some _ _ _ Hsup) as Hlt_sup.
  pose proof (lookup_lt_Some _ _ _ Hinf) as Hlt_inf.
  assert (<[s_sup := merged]> rows !! s_inf = Some inferior_item) as Hinf1
    by (by rewrite list_lookup_insert_ne).
  repeat split; try done.
  - rewrite Hrows'. case_bool_decide.
    + rewrite list_lookup_delete_lt by done.
      by apply list_lookup_insert_eq.
    + rewrite list_lookup_delete_ge by lia.
      replace (S (s_sup - 1)) with s_sup by lia.
      by apply list_lookup_insert_eq.
  - rewrite Hrows', length_delete by (by eexists).
    rewrite length_insert. lia.
  - apply (Permutation_app_inv_l (Role_AllResults inferior_item)).
    rewrite <- all_alternatives_cons, Hrows'.
    rewrite <- (all_alternatives_perm _ _ (delete_Permutation _ _ _ Hinf1)).
    rewrite insert_take_drop by done.
    rewrite <- (take_drop_middle rows s_sup superior_item Hsup) at 3.
    rewrite !all_alternatives_app, !all_alternatives_cons.
    unfold merged. simpl.
    rewrite <- (List.app_assoc (Role_AllResults superior_item)).
    rewrite (Permutation_app_swap_app (Role_AllResults inferior_item)).
    apply Permutation_app_head.
    rewrite (Permutation_app_swap_app (Role_AllResults inferior_item)).
    done.
Qed.

End MergeFacts.

(** ** The candidate scan of [AddResults] *)

Section ScanFacts.

Variable foldCase : ascii -> ascii.
Variable lessThan : Item -> Item -> bool.
Variable provider_order : list QString.

Lemma rows_before_reverse (row : nat) : rows_before row = reverse (seq 0 row).
Proof.
  induction row as [|i IH]; [done|].
  rewrite seq_S, reverse_snoc. simpl. by rewrite IH.
Qed.

Lemma rows_before_lt (row i : nat) : i ∈ rows_before row -> (i < row)%nat.
Proof.
  induction row as [|j IH]; simpl; [by intros ?%elem_of_nil|].
  intros [->|H]%elem_of_cons; [lia|]. specialize (IH H). lia.
Qed.

Lemma omap_sibling (n row : nat) (l : list nat) :
  Forall (fun i => (i < n)%nat) l ->
  omap (fun x : option nat => x) (map (sibling n (Some row)) l) = l.
Proof.
  induction 1 as [|i l Hi _ IH]; csimpl; [done|].
  rewrite (bool_decide_eq_true_2 _ Hi). csimpl. by rewrite IH.
Qed.

(** The valid indexes among [candidates] are the rows the specification
    lists. *)
Lemma candidates_valid (n row : nat) :
  (row < n)%nat ->
  omap (fun x : option nat => x) (candidates n (Some row))
  = candidates_in_words n row.
Proof.
  intros Hrow. unfold candidates, candidates_in_words.
  rewrite <- rows_before_reverse.
  assert (omap (fun x : option nat => x)
            (map (sibling n (Some row)) (rows_before row)) = rows_before row)
    as Hbefore.
  { apply omap_sibling, Forall_forall. intros i Hi%rows_before_lt. lia. }
  csimpl. case_bool_decide; csimpl; by rewrite Hbefore.
Qed.

Lemma candidates_in_words_range (n row c : nat) :
  (row < n)%nat -> c ∈ candidates_in_words n row -> (c < n)%nat /\ c <> row.
Proof.
  intros Hrow. unfold candidates_in_words.
  rewrite elem_of_app, elem_of_reverse, elem_of_seq.
  intros [H|H]; [|lia].
  case_bool_decide; [|by apply elem_of_nil in H].
  apply list_elem_of_singleton in H. lia.
Qed.

(** The loop is a search for the first valid candidate that can be
    combined, followed by one merge with it. *)
Lemma combine_scan_first (rows : list Item) (my : nat) (cands : list (option nat)) :
  combine_scan foldCase lessThan provider_order rows my cands
  = match list_find (combinable foldCase lessThan provider_order rows my)
            (omap (fun x : option nat => x) cands) with
    | None => rows
    | Some (_, c) => merge_with foldCase lessThan provider_order rows my c
    end.
Proof.
  induction cands as [|[c|] cands IH]; csimpl; [done| |done].
  unfold merge_with.
  destruct (decide (combinable foldCase lessThan provider_order rows my c))
    as [Hc|Hc]; unfold combinable in Hc.
  - by destruct (CanCombineResults_index _ _ _ rows my c).
  - destruct (CanCombineResults_index _ _ _ rows my c) eqn:E;
      [|by destruct Hc|by destruct Hc].
    rewrite IH.
    by destruct (list_find _ _) as [[? ?]|].
Qed.



End ScanFacts.

(** ** Which side of a merge is kept as the primary *)

Section PreferenceFacts.

Variable foldCase : ascii -> ascii.
Variable lessThan : Item -> Item -> bool.

Lemma indexOf_from_spec (l : list QString) (x : QString) (i : Z) :
  0 <= i ->
  (x ∈ l -> i <= indexOf_from l x i) /\ (x ∉ l -> indexOf_from l x i = -1).
Proof.
  revert i. induction l as [|y l IH]; intros i Hi; simpl.
  - split; [by intros ?%elem_of_nil | done].
  - destruct (String.eqb_spec y x) as [->|Hne].
    + split; [lia|]. intros H. destruct H. by left.
    + destruct (IH (i + 1)) as [IH1 IH2]; [lia|]. split.
      * intros [->|H]%elem_of_cons; [done|]. specialize (IH1 H). lia.
      * intros H. apply IH2. intros H'. apply H. by right.
Qed.

Lemma indexOf_absent (l : list QString) (x : QString) :
  x ∉ l -> indexOf l x = -1.
Proof. intros H. by apply (indexOf_from_spec l x 0). Qed.

Lemma indexOf_present (l : list QString) (x : QString) :
  x ∈ l -> 0 <= indexOf l x.
Proof. intros H. by apply (indexOf_from_spec l x 0). Qed.

(** The buffer after a new record was appended behind one existing record
    and the merge step has run, when the two can be combined. *)
Lemma combine_new_item_pair (order : list QString) (existing new_item : Item) :
  CanCombineResults foldCase order
    (Role_PrimaryResult new_item) (Role_PrimaryResult existing)
  <> CannotCombine ->
  combine_new_item foldCase lessThan order [existing; new_item]
  = match CanCombineResults foldCase order
            (Role_PrimaryResult new_item) (Role_PrimaryResult existing) with
    | RightPreferred =>
        [setAllResults
           (Role_AllResults existing ++ Role_AllResults new_item) existing]
    | _ =>
        [setAllResults
           (Role_AllResults new_item ++ Role_AllResults existing) new_item]
    end.
Proof.
  intros Hc.
  unfold combine_new_item, mapFromSource, proxy_to_source. simpl.
  destruct (lessThan new_item existing) eqn:Hlt; simpl.
  - unfold CanCombineResults_index, proxy_data, proxy_to_source. simpl.
    rewrite Hlt. simpl.
    destruct (CanCombineResults _ _ _ _); [done| |];
      unfold CombineResults, mapToSource, proxy_to_source; simpl;
      rewrite Hlt; done.
  - unfold CanCombineResults_index, proxy_data, proxy_to_source. simpl.
    rewrite Hlt. simpl.
    destruct (CanCombineResults _ _ _ _); [done| |];
      unfold CombineResults, mapToSource, proxy_to_source; simpl;
      rewrite Hlt; done.
Qed.

(** Where the merged record is once the inferior row has been removed. *)
Lemma merged_row_lookup (rows : list Item) (s_sup s_inf : nat) (merged : Item) :
  (s_sup < length rows)%nat -> s_sup <> s_inf ->
  delete s_inf (<[s_sup := merged]> rows)
    !! (if bool_decide (s_sup < s_inf)%nat then s_sup else (s_sup - 1)%nat)
  = Some merged.
Proof.
  intros Hlt Hne. case_bool_decide.
  - rewrite list_lookup_delete_lt by done. by apply list_lookup_insert_eq.
  - rewrite list_lookup_delete_ge by lia.
    replace (S (s_sup - 1)) with s_sup by lia.
    by apply list_lookup_insert_eq.
Qed.

(** The loop passes over invalid candidates and candidates that cannot be
    combined. *)
Lemma combine_scan_skip (order : list QString) (rows : list Item) (my : nat)
  (pre rest : list (option nat)) :
  Forall (fun o => forall c', o = Some c' ->
            CanCombineResults_index foldCase lessThan order rows my c'
            = CannotCombine) pre ->
  combine_scan foldCase lessThan order rows my (pre ++ rest)
  = combine_scan foldCase lessThan order rows my rest.
Proof.
  induction 1 as [|[c'|] pre H _ IH]; simpl; [done| |done].
  by rewrite (H c' eq_refl).
Qed.

(** C1 (amended). In any buffer, when the scan of [AddResults] reaches a
    candidate whose primary result is equivalent to that of the record
    being inserted (the candidates before it being invalid or not
    combinable), the side whose provider has the greater position in the
    provider order ([QStringList::indexOf], -1 for a provider that is not
    listed) is the superior record: its row is kept with its primary
    result, the other side's alternatives are appended to it and the
    other side's row is removed.  With equal positions, in particular
    when neither provider is listed, the left operand (the record being
    inserted) is superior. *)
Theorem merge_prefers_greater_position (order : list QString)
  (rows : list Item) (my c s_my s_c : nat) (i_my i_c : Item)
  (pre post : list (option nat)) :
  let left := Role_PrimaryResult i_my in
  let right := Role_PrimaryResult i_c in
  let p1 := indexOf order (id (provider_ left)) in
  let p2 := indexOf order (id (provider_ right)) in
  let rows' :=
    combine_scan foldCase lessThan order rows my (pre ++ Some c :: post) in
  let keep_right :=
    setAllResults (Role_AllResults i_c ++ Role_AllResults i_my) i_c in
  let keep_left :=
    setAllResults (Role_AllResults i_my ++ Role_AllResults i_c) i_my in
  proxy_to_source lessThan rows !! my = Some (s_my, i_my) ->
  proxy_to_source lessThan rows !! c = Some (s_c, i_c) ->
  my <> c ->
  Forall (fun o => forall c', o = Some c' ->
            CanCombineResults_index foldCase lessThan order rows my c'
            = CannotCombine) pre ->
  equivalent foldCase left right ->
  (p1 < p2 ->
   CanCombineResults foldCase order left right = RightPreferred
   /\ rows' = delete s_my (<[s_c := keep_right]> rows)
   /\ rows' !! (if bool_decide (s_c < s_my)%nat then s_c else (s_c - 1)%nat)
      = Some keep_right
   /\ Role_PrimaryResult keep_right = right)
  /\ (p2 <= p1 ->
      CanCombineResults foldCase order left right = LeftPreferred
      /\ rows' = delete s_c (<[s_my := keep_left]> rows)
      /\ rows' !! (if bool_decide (s_my < s_c)%nat then s_my else (s_my - 1)%nat)
         = Some keep_left
      /\ Role_PrimaryResult keep_left = left)
  /\ (id (provider_ left) ∉ order -> id (provider_ right) ∉ order ->
      CanCombineResults foldCase order left right = LeftPreferred
      /\ rows' = delete s_c (<[s_my := keep_left]> rows)).
Proof.
  intros left right p1 p2 rows' keep_right keep_left Hmy Hc Hne Hpre Heq.
  pose proof (CanCombineResults_equivalent foldCase order left right Heq) as Ha.
  fold p1 p2 in Ha.
  pose proof (proxy_to_source_inj _ _ _ _ _ _ _ _ Hmy Hc Hne) as Hsne.
  pose proof (lookup_lt_Some _ _ _ (proxy_to_source_lookup _ _ _ _ _ Hmy))
    as Hlt_my.
  pose proof (lookup_lt_Some _ _ _ (proxy_to_source_lookup _ _ _ _ _ Hc))
    as Hlt_c.
  assert (CanCombineResults_index foldCase lessThan order rows my c
          = CanCombineResults foldCase order left right) as Hidx.
  { unfold CanCombineResults_index, proxy_data. by rewrite Hmy, Hc. }
  assert (rows' = match CanCombineResults foldCase order left right with
                  | CannotCombine =>
                      combine_scan foldCase lessThan order rows my post
                  | LeftPreferred => delete s_c (<[s_my := keep_left]> rows)
                  | RightPreferred => delete s_my (<[s_c := keep_right]> rows)
                  end) as Hrows'.
  { unfold rows'. rewrite combine_scan_skip by done. simpl. rewrite Hidx.
    destruct (CanCombineResults foldCase order left right); [done| |].
    - by apply CombineResults_items.
    - by apply CombineResults_items. }
  assert (p2 <= p1 ->
          CanCombineResults foldCase order left right = LeftPreferred
          /\ rows' = delete s_c (<[s_my := keep_left]> rows)
          /\ rows' !! (if bool_decide (s_my < s_c)%nat
                       then s_my else (s_my - 1)%nat)
             = Some keep_left
          /\ Role_PrimaryResult keep_left = left) as Hleft.
  { intros Hle. destruct (Z.gtb_spec p2 p1) as [|_]; [lia|].
    rewrite Ha in Hrows'. split; [done|]. split; [done|]. split; [|done].
    rewrite Hrows'. by apply merged_row_lookup. }
  split; [|split; [exact Hleft|]].
  - intros Hlt. destruct (Z.gtb_spec p2 p1) as [_|]; [|lia].
    rewrite Ha in Hrows'. split; [done|]. split; [done|]. split; [|done].
    rewrite Hrows'. apply merged_row_lookup; [done|]. by intros ->.
  - intros H1 H2. destruct Hleft as (? & ? & _); [|done].
    unfold p1, p2. by rewrite (indexOf_absent _ _ H1), (indexOf_absent _ _ H2).
Qed.

End PreferenceFacts.

(** ** The slots of the widget *)

Lemma rowsOf_set_rows (m m' : ModelPtr) (rows : list Item)
  (w : GlobalSearchWidget) :
  rowsOf (set_rows m rows w) m' = if decide (m = m') then rows else rowsOf w m'.
Proof. by destruct m, m'. Qed.

Lemma set_rows_same (m : ModelPtr) (w : GlobalSearchWidget) :
  set_rows m (rowsOf w m) w = w.
Proof. by destruct w, m. Qed.

(** The popup is hidden when the front model is empty and showing
    otherwise; nothing else changes. *)
Lemma RepositionPopup_spec (w : GlobalSearchWidget) :
  let w' := RepositionPopup w in
  view_isVisible (view_ w')
  = negb (bool_decide (length (rowsOf w (front_model_ w)) = 0%nat))
  /\ (length (rowsOf w (front_model_ w)) = 0%nat ->
      forall t, tooltip_ w' = Some t -> tooltip_isVisible t = false)
  /\ view_model (view_ w') = view_model (view_ w)
  /\ set_popup (view_ w) (tooltip_ w) w' = w.
Proof.
  unfold RepositionPopup, HidePopup. case_bool_decide as He; simpl.
  - repeat split; [|by destruct w]. intros _ t. by destruct (tooltip_ w); intros [= <-].
  - destruct (view_isVisible (view_ w)) eqn:Hv; simpl;
      repeat split; try done; by destruct w as [? ? ? ? ? ? ? ? ? ? ? []].
Qed.

(** The expiry of a running timer, field by field. *)
Lemma timeout_running (w : GlobalSearchWidget) :
  swap_models_timer_ w = true ->
  let w' := swap_models_timer_timeout w in
  front_model_ w' = back_model_ w
  /\ front_proxy_ w' = back_proxy_ w
  /\ view_model (view_ w') = back_proxy_ w
  /\ (forall m, rowsOf w' m = rowsOf w m)
  /\ view_isVisible (view_ w')
     = negb (bool_decide (length (rowsOf w (back_model_ w)) = 0%nat))
  /\ art_requests_ w' = ∅
  /\ engine_ w' = engine_ w.
Proof.
  intros Ht. unfold swap_models_timer_timeout. rewrite Ht.
  unfold SwapModels, RepositionPopup, HidePopup. simpl.
  destruct w as [? ? ? mA mB ? bm ? ? ? ? [vm vis] ? ? ? ? ? ?]. simpl in *.
  destruct bm; simpl; case_bool_decide as He; simpl;
    try (destruct vis; simpl); repeat split; try done; by intros [].
Qed.

(** The expiry of a running timer stops the timer and exchanges the front
    and the back pointer; [current_model_] and the search id stay. *)
Lemma timeout_running_back (w : GlobalSearchWidget) :
  swap_models_timer_ w = true ->
  let w' := swap_models_timer_timeout w in
  back_model_ w' = front_model_ w
  /\ current_model_ w' = current_model_ w
  /\ swap_models_timer_ w' = false
  /\ last_id_ w' = last_id_ w.
Proof.
  intros Ht. unfold swap_models_timer_timeout. rewrite Ht.
  unfold SwapModels, RepositionPopup, HidePopup. simpl.
  case_bool_decide; [done|]. by destruct (negb _).
Qed.


Section SlotFacts.

Variable isSpace : ascii -> bool.
Variable foldCase : ascii -> ascii.
Variable lessThan : Item -> Item -> bool.
Variable FindCachedPixmap : Result -> option QPixmap.

(** [add_result] writes to the model [current_model_] points to and to
    nothing else. *)
Lemma add_result_frame (w : GlobalSearchWidget) (result : Result) :
  exists rows,
    add_result foldCase lessThan FindCachedPixmap w result
    = set_rows (current_model_ w) rows w.
Proof.
  unfold add_result.
  destruct (combine_identical_results_ w); [case_bool_decide|]; by eexists.
Qed.

Lemma fold_add_result_frame (results : ResultList) (w : GlobalSearchWidget) :
  exists rows,
    fold_left (add_result foldCase lessThan FindCachedPixmap) results w
    = set_rows (current_model_ w) rows w.
Proof.
  revert w. induction results as [|r results IH]; intros w; simpl.
  - exists (rowsOf w (current_model_ w)). by rewrite set_rows_same.
  - destruct (add_result_frame w r) as [rows ->].
    destruct (IH (set_rows (current_model_ w) rows w)) as [rows' ->].
    exists rows'. by destruct w, current_model_0.
Qed.

(** C4. A batch whose id is not the id of the current search is dropped
    as a whole: [AddResults] returns the widget unchanged (both models,
    the arrival counter and both request tables included). *)
Theorem AddResults_stale_id_dropped (id : Z) (results : ResultList)
  (w : GlobalSearchWidget) :
  id <> last_id_ w ->
  AddResults foldCase lessThan FindCachedPixmap id results w = w.
Proof. intros H. unfold AddResults. by rewrite bool_decide_eq_true_2. Qed.

(** A search started later supersedes the earlier one. *)
Lemma AddResults_superseded (text : QString) (id id' : Z)
  (results : ResultList) (w : GlobalSearchWidget) :
  (3 <= String.length (trimmed isSpace text))%nat -> id <> id' ->
  let w' := TextEdited isSpace text id' w in
  last_id_ w' = id'
  /\ AddResults foldCase lessThan FindCachedPixmap id results w' = w'.
Proof.
  intros Hlen Hne w'.
  assert (last_id_ w' = id') as Hid.
  { unfold w', TextEdited. by rewrite bool_decide_eq_false_2 by lia. }
  split; [done|]. unfold AddResults.
  by rewrite bool_decide_eq_true_2 by (by rewrite Hid).
Qed.

Lemma AddResults_frame (id : Z) (results : ResultList) (w : GlobalSearchWidget) :
  exists rows,
    AddResults foldCase lessThan FindCachedPixmap id results w = w
    \/ AddResults foldCase lessThan FindCachedPixmap id results w
       = RepositionPopup
           (set_order_arrived_counter (int_wrap (order_arrived_counter_ w + 1))
              (set_rows (current_model_ w) rows w)).
Proof.
  unfold AddResults. case_bool_decide; [by exists []; left|].
  destruct (fold_add_result_frame results w) as [rows ->].
  exists rows. right. by destruct w.
Qed.

Lemma RepositionPopup_rows (w : GlobalSearchWidget) (m : ModelPtr) :
  rowsOf (RepositionPopup w) m = rowsOf w m.
Proof.
  unfold RepositionPopup, HidePopup.
  case_bool_decide; [by destruct m|]. by destruct (negb _), m.
Qed.

Lemma RepositionPopup_pointers (w : GlobalSearchWidget) :
  front_model_ (RepositionPopup w) = front_model_ w
  /\ back_model_ (RepositionPopup w) = back_model_ w
  /\ current_model_ (RepositionPopup w) = current_model_ w
  /\ swap_models_timer_ (RepositionPopup w) = swap_models_timer_ w
  /\ art_requests_ (RepositionPopup w) = art_requests_ w.
Proof.
  unfold RepositionPopup, HidePopup.
  case_bool_decide; [done|]. by destruct (negb _).
Qed.

(** After the cutover of a search, [current_model_] is the front model. *)
Lemma cutover_current_is_front (text : QString) (search_id : Z)
  (w : GlobalSearchWidget) :
  (3 <= String.length (trimmed isSpace text))%nat ->
  front_model_ w <> back_model_ w ->
  let cut := swap_models_timer_timeout (TextEdited isSpace text search_id w) in
  last_id_ cut = search_id
  /\ current_model_ cut = front_model_ cut
  /\ current_model_ cut <> back_model_ cut.
Proof.
  intros Hlen Hfb. unfold TextEdited.
  rewrite bool_decide_eq_false_2 by lia.
  unfold swap_models_timer_timeout, SwapModels. simpl.
  unfold RepositionPopup, HidePopup. case_bool_decide; simpl.
  - split; [done|]. split; [done|]. congruence.
  - destruct (negb _); simpl; (split; [done|]; split; [done|]; congruence).
Qed.

Lemma TextEdited_long (text : QString) (id : Z) (w : GlobalSearchWidget) :
  (3 <= String.length (trimmed isSpace text))%nat ->
  let w1 := TextEdited isSpace text id w in
  last_id_ w1 = id
  /\ pointers w1
     = (front_model_ w, back_model_ w, back_model_ w,
        (front_proxy_ w, back_proxy_ w, back_proxy_ w))
  /\ rowsOf w1 (back_model_ w) = []
  /\ (forall m, m <> back_model_ w -> rowsOf w1 m = rowsOf w m)
  /\ swap_models_timer_ w1 = true
  /\ order_arrived_counter_ w1 = 0
  /\ view_ w1 = view_ w
  /\ engine_ w1 = engine_ w ++ [CancelSearch (last_id_ w);
                                SearchAsync (trimmed isSpace text)].
Proof.
  intros Hlen. unfold TextEdited. rewrite bool_decide_eq_false_2 by lia.
  destruct w as [? ? ? mA mB ? bm ? ? ? ? ? ? ? ? ? ? ?]. simpl.
  destruct bm; repeat split; try done; by intros [].
Qed.

(** One batch: only the rows of the model [current_model_] points to can
    change; the model pointers and the timer are as before. *)
Lemma AddResults_step (id : Z) (results : ResultList) (w : GlobalSearchWidget) :
  let w' := AddResults foldCase lessThan FindCachedPixmap id results w in
  (forall m, m <> current_model_ w -> rowsOf w' m = rowsOf w m)
  /\ front_model_ w' = front_model_ w
  /\ back_model_ w' = back_model_ w
  /\ current_model_ w' = current_model_ w
  /\ swap_models_timer_ w' = swap_models_timer_ w.
Proof.
  intros w'.
  destruct (AddResults_frame id results w) as [rows [H|H]]; fold w' in H;
    rewrite H; [done|].
  destruct (RepositionPopup_pointers
              (set_order_arrived_counter (int_wrap (order_arrived_counter_ w + 1))
                 (set_rows (current_model_ w) rows w)))
    as (-> & -> & -> & -> & _).
  split; [|done].
  intros m Hm. rewrite RepositionPopup_rows.
  destruct w; simpl in *. by destruct current_model_0, m.
Qed.

(** Any number of batches, whatever their ids. *)
Lemma AddResults_batches (batches : list (Z * ResultList))
  (w : GlobalSearchWidget) :
  let w' := fold_left
              (fun w0 b => AddResults foldCase lessThan FindCachedPixmap
                             (fst b) (snd b) w0) batches w in
  (forall m, m <> current_model_ w -> rowsOf w' m = rowsOf w m)
  /\ front_model_ w' = front_model_ w
  /\ back_model_ w' = back_model_ w
  /\ current_model_ w' = current_model_ w
  /\ swap_models_timer_ w' = swap_models_timer_ w.
Proof.
  revert w. induction batches as [|[id results] batches IH]; intros w; simpl;
    [done|].
  destruct (AddResults_step id results w) as (H1 & H2 & H3 & H4 & H5).
  destruct (IH (AddResults foldCase lessThan FindCachedPixmap id results w))
    as (I1 & I2 & I3 & I4 & I5).
  rewrite I2, I3, I4, I5, H2, H3, H4, H5. split; [|done].
  intros m Hm. rewrite I1 by (by rewrite H4). by apply H1.
Qed.

(** C5 (amended). [AddResults] changes only the model [current_model_]
    points to and leaves the model pointers as they are.  From the start
    of a search ([TextEdited]) until the cutover, that model is the back
    (staging) model: whatever batches arrive, the front (active) model
    keeps its rows.  The cutover (the timer's timeout) exchanges front
    and back and leaves [current_model_] alone, so afterwards it is the
    front model: a later batch leaves the back model unchanged, and a
    batch of the still current search is appended to, and merged within,
    the front (visible) model. *)
Theorem AddResults_changes_current_model_only (text : QString) (search_id : Z)
  (batches : list (Z * ResultList)) (id : Z) (results : ResultList)
  (w : GlobalSearchWidget) :
  let started := TextEdited isSpace text search_id w in
  let before :=
    fold_left (fun w0 b => AddResults foldCase lessThan FindCachedPixmap
                             (fst b) (snd b) w0) batches started in
  let cut := swap_models_timer_timeout before in
  let after := AddResults foldCase lessThan FindCachedPixmap id results cut in
  (3 <= String.length (trimmed isSpace text))%nat ->
  front_model_ w <> back_model_ w ->
  (forall id0 results0 w0 m,
     m <> current_model_ w0 ->
     rowsOf (AddResults foldCase lessThan FindCachedPixmap id0 results0 w0) m
     = rowsOf w0 m)
  /\ (current_model_ before = back_model_ before
      /\ front_model_ before = front_model_ w
      /\ back_model_ before = back_model_ w
      /\ rowsOf before (front_model_ before) = rowsOf w (front_model_ w))
  /\ (front_model_ cut = back_model_ w
      /\ back_model_ cut = front_model_ w
      /\ current_model_ cut = front_model_ cut
      /\ forall m, rowsOf cut m = rowsOf before m)
  /\ (front_model_ after = front_model_ cut
      /\ back_model_ after = back_model_ cut
      /\ current_model_ after = front_model_ after
      /\ rowsOf after (back_model_ after) = rowsOf cut (back_model_ cut))
  /\ (id = last_id_ cut ->
      rowsOf after (front_model_ after)
      = rowsOf (fold_left (add_result foldCase lessThan FindCachedPixmap)
                  results cut) (front_model_ cut)).
Proof.
  intros started before cut after Hlen Hfb.
  destruct (TextEdited_long text search_id w Hlen)
    as (_ & Hp & _ & Hother & Ht & _).
  fold started in Hp, Hother, Ht.
  unfold pointers in Hp. injection Hp as Hf0 Hb0 Hc0 _ _ _.
  destruct (AddResults_batches batches started) as (B1 & B2 & B3 & B4 & B5).
  fold before in B1, B2, B3, B4, B5.
  rewrite Hf0 in B2. rewrite Hb0 in B3. rewrite Hc0 in B4, B1.
  rewrite Ht in B5.
  destruct (timeout_running before B5) as (T1 & _ & _ & T4 & _).
  destruct (timeout_running_back before B5) as (T5 & T6 & _ & _).
  fold cut in T1, T4, T5, T6.
  rewrite B3 in T1. rewrite B2 in T5. rewrite B4 in T6.
  destruct (AddResults_step id results cut) as (A1 & A2 & A3 & A4 & _).
  fold after in A1, A2, A3, A4.
  split; [intros id0 results0 w0 m Hm; by apply AddResults_step|].
  split.
  { rewrite B2, B3, B4. split; [done|]. split; [done|]. split; [done|].
    rewrite B1 by done. by apply Hother. }
  split; [by rewrite T1, T5, T6|].
  split.
  { rewrite A2, A3, A4, T1, T5, T6. split; [done|]. split; [done|].
    split; [done|]. apply A1. by rewrite T6. }
  intros ->. rewrite A2. unfold after, AddResults.
  rewrite bool_decide_eq_false_2 by (by intros ?).
  rewrite RepositionPopup_rows.
  by destruct (fold_left _ _ _), (front_model_ cut).
Qed.

End SlotFacts.

(** ** Short queries, cutover and the request tables *)

Section ShortQuery.

Variable isSpace : ascii -> bool.

Lemma RepositionPopup_requests (w : GlobalSearchWidget) :
  engine_ (RepositionPopup w) = engine_ w
  /\ last_id_ (RepositionPopup w) = last_id_ w
  /\ order_arrived_counter_ (RepositionPopup w) = order_arrived_counter_ w
  /\ track_requests_ (RepositionPopup w) = track_requests_ w.
Proof.
  unfold RepositionPopup, HidePopup.
  case_bool_decide; [done|]. by destruct (negb _).
Qed.

(** C7 (amended). A query whose trimmed length is below 3 starts no
    search: nothing is sent to the engine, and no model, counter, pointer,
    timer or request table changes.  The popup is hidden when the front
    model is empty; when the front model has rows the popup is showing
    afterwards. *)
Theorem TextEdited_short_query (text : QString) (search_id : Z)
  (w : GlobalSearchWidget) :
  (String.length (trimmed isSpace text) < 3)%nat ->
  let w' := TextEdited isSpace text search_id w in
  w' = RepositionPopup w
  /\ set_popup (view_ w) (tooltip_ w) w' = w
  /\ engine_ w' = engine_ w
  /\ last_id_ w' = last_id_ w
  /\ order_arrived_counter_ w' = order_arrived_counter_ w
  /\ (forall m, rowsOf w' m = rowsOf w m)
  /\ swap_models_timer_ w' = swap_models_timer_ w
  /\ view_isVisible (view_ w')
     = negb (bool_decide (length (rowsOf w (front_model_ w)) = 0%nat)).
Proof.
  intros Hlen w'.
  assert (w' = RepositionPopup w) as ->
    by (unfold w', TextEdited; by rewrite bool_decide_eq_true_2).
  destruct (RepositionPopup_spec w) as (Hv & _ & _ & Hframe).
  split; [done|]. split; [done|].
  destruct (RepositionPopup_requests w) as (? & ? & ? & _).
  split; [done|]. split; [done|]. split; [done|].
  split; [exact (RepositionPopup_rows w)|].
  split; [apply RepositionPopup_pointers | exact Hv].
Qed.

End ShortQuery.

Lemma SwapModels_timer (w : GlobalSearchWidget) :
  swap_models_timer_ (SwapModels w) = swap_models_timer_ w.
Proof.
  unfold SwapModels.
  by rewrite (proj1 (proj2 (proj2 (proj2 (RepositionPopup_pointers _))))).
Qed.

Lemma SwapModels_front (w : GlobalSearchWidget) :
  front_model_ (SwapModels w) = back_model_ w
  /\ back_model_ (SwapModels w) = front_model_ w
  /\ forall m, rowsOf (SwapModels w) m = rowsOf w m.
Proof.
  unfold SwapModels.
  destruct (RepositionPopup_pointers
    {| engine_ := engine_ w; last_id_ := last_id_ w;
       order_arrived_counter_ := order_arrived_counter_ w;
       modelA := modelA w; modelB := modelB w;
       front_model_ := back_model_ w; back_model_ := front_model_ w;
       current_model_ := current_model_ w;
       front_proxy_ := back_proxy_ w; back_proxy_ := front_proxy_ w;
       current_proxy_ := current_proxy_ w;
       view_ := mkView (back_proxy_ w) (view_isVisible (view_ w));
       tooltip_ := tooltip_ w;
       swap_models_timer_ := swap_models_timer_ w;
       art_requests_ := ∅;
       track_requests_ := track_requests_ w;
       combine_identical_results_ := combine_identical_results_ w;
       provider_order_ := provider_order_ w |}) as (-> & -> & _).
  split; [done|]. split; [done|].
  intros m. rewrite RepositionPopup_rows. by destruct m.
Qed.

Section CutoverFacts.

Variable isSpace : ascii -> bool.


End CutoverFacts.

Section RequestFacts.

Variable lessThan : Item -> Item -> bool.

Lemma SwapModels_art_requests (w : GlobalSearchWidget) :
  art_requests_ (SwapModels w) = ∅.
Proof.
  unfold SwapModels.
  by rewrite (proj2 (proj2 (proj2 (proj2 (RepositionPopup_pointers _))))).
Qed.

(** C9. [SwapModels] empties the art request table, and [ArtLoaded] for an
    id that is not in the table returns the widget unchanged; so the
    answer to an art request made before a cutover, arriving after it,
    sets no decoration and changes nothing. *)
Theorem ArtLoaded_after_cutover_ignored (id : Z) (pixmap : QPixmap)
  (w : GlobalSearchWidget) :
  art_requests_ (SwapModels w) = ∅
  /\ ArtLoaded id pixmap (SwapModels w) = Some (SwapModels w)
  /\ (art_requests_ w !! id = None -> ArtLoaded id pixmap w = Some w)
  /\ (forall proxy_index w1,
        LazyLoadArt lessThan proxy_index id w = Some w1 ->
        ArtLoaded id pixmap (SwapModels w1) = Some (SwapModels w1)).
Proof.
  assert (forall w0, ArtLoaded id pixmap (SwapModels w0) = Some (SwapModels w0))
    as Hswap.
  { intros w0. unfold ArtLoaded.
    by rewrite SwapModels_art_requests, lookup_empty. }
  split; [apply SwapModels_art_requests|]. split; [apply Hswap|]. split.
  - intros H. unfold ArtLoaded. by rewrite H.
  - intros _ w1 _. apply Hswap.
Qed.

(** The request is recorded when [LazyLoadArt] issues it. *)
Lemma LazyLoadArt_recorded (p : ProxyPtr) (row source_row : nat) (item : Item)
  (art_id : Z) (w : GlobalSearchWidget) :
  proxy_to_source lessThan (rowsOf w (sourceModel p)) !! row
  = Some (source_row, item) ->
  Role_LazyLoadingArt item = false ->
  p = front_proxy_ w -> sourceModel p = front_model_ w ->
  exists w1,
    LazyLoadArt lessThan (Some (p, row)) art_id w = Some w1
    /\ art_requests_ w1 !! art_id = Some (front_model_ w, source_row)
    /\ engine_ w1 = engine_ w ++ [LoadArtAsync (Role_PrimaryResult item)].
Proof.
  intros Hrow Hlazy Hp Hm. unfold LazyLoadArt. rewrite Hrow, Hlazy.
  rewrite bool_decide_eq_false_2 by (by intros ?).
  rewrite bool_decide_eq_false_2 by (by intros ?).
  eexists. split; [done|]. simpl. rewrite lookup_insert_eq, Hm.
  split; [done|]. by destruct (front_model_ w).
Qed.

(** C10. When [LoadTracks] finds no valid row to work on, or the
    alternative picked is outside the range of the row's list of
    alternatives, it returns the widget unchanged: no request goes to the
    engine and the track request table is as before. *)
Theorem LoadTracks_out_of_range (trigger : option QAction)
  (currentIndex : option (ProxyPtr * nat)) (tracks_id : Z)
  (w : GlobalSearchWidget) :
  (LoadTracks_index currentIndex w = None
   \/ exists p row,
        LoadTracks_index currentIndex w = Some (p, row)
        /\ (LoadTracks_result_index w < 0
            \/ Z.of_nat (length (data_AllResults lessThan w p row))
               <= LoadTracks_result_index w)) ->
  let w' := LoadTracks lessThan trigger currentIndex tracks_id w in
  w' = w /\ engine_ w' = engine_ w /\ track_requests_ w' = track_requests_ w.
Proof.
  intros H w'.
  assert (w' = w) as ->; [|done].
  unfold w', LoadTracks.
  destruct H as [->|(p & row & -> & Hrange)]; [done|].
  destruct Hrange as [Hneg|Hge].
  - by rewrite (proj2 (Z.ltb_lt _ _) Hneg).
  - rewrite (proj2 (Z.geb_le _ _) Hge). by rewrite orb_true_r.
Qed.

(** Within the range the request is issued and recorded. *)
Lemma LoadTracks_in_range (trigger : option QAction)
  (currentIndex : option (ProxyPtr * nat)) (tracks_id : Z)
  (w : GlobalSearchWidget) (p : ProxyPtr) (row : nat) (result : Result) :
  LoadTracks_index currentIndex w = Some (p, row) ->
  0 <= LoadTracks_result_index w ->
  data_AllResults lessThan w p row !! Z.to_nat (LoadTracks_result_index w)
  = Some result ->
  let w' := LoadTracks lessThan trigger currentIndex tracks_id w in
  engine_ w' = engine_ w ++ [LoadTracksAsync result]
  /\ track_requests_ w' !! tracks_id = Some trigger.
Proof.
  intros Hidx Hpos Hres w'. unfold w', LoadTracks. rewrite Hidx, Hres.
  pose proof (lookup_lt_Some _ _ _ Hres) as Hlt.
  rewrite (proj2 (Z.ltb_ge _ _) Hpos).
  destruct (Z.geb_spec (LoadTracks_result_index w)
              (Z.of_nat (length (data_AllResults lessThan w p row))));
    [lia|].
  simpl. split; [done|]. apply lookup_insert_eq.
Qed.

End RequestFacts.

(** ** The model and proxy pointers stay paired *)

Lemma pointers_paired_eq (w w' : GlobalSearchWidget) :
  pointers w' = pointers w -> pointers_paired w -> pointers_paired w'.
Proof.
  unfold pointers, pointers_paired.
  intros [= -> -> -> -> -> ->]. done.
Qed.

Lemma pointers_RepositionPopup (w : GlobalSearchWidget) :
  pointers (RepositionPopup w) = pointers w.
Proof.
  unfold RepositionPopup, HidePopup.
  case_bool_decide; [done|]. by destruct (negb _).
Qed.

Lemma pointers_paired_new (combine : bool) (order : list QString) :
  pointers_paired (GlobalSearchWidget_new combine order).
Proof. by unfold pointers_paired. Qed.

Lemma pointers_paired_SwapModels (w : GlobalSearchWidget) :
  pointers_paired w -> pointers_paired (SwapModels w).
Proof.
  intros (Hf & Hb & Hc & Hne). unfold SwapModels.
  eapply pointers_paired_eq; [apply pointers_RepositionPopup|].
  unfold pointers_paired. simpl. repeat split; try done.
Qed.

Lemma pointers_paired_timeout (w : GlobalSearchWidget) :
  pointers_paired w -> pointers_paired (swap_models_timer_timeout w).
Proof.
  intros H. unfold swap_models_timer_timeout.
  destruct (swap_models_timer_ w); [|done].
  by apply pointers_paired_SwapModels.
Qed.

Section PointerFacts.

Variable isSpace : ascii -> bool.
Variable foldCase : ascii -> ascii.
Variable lessThan : Item -> Item -> bool.
Variable FindCachedPixmap : Result -> option QPixmap.

Lemma pointers_paired_TextEdited (text : QString) (search_id : Z)
  (w : GlobalSearchWidget) :
  pointers_paired w -> pointers_paired (TextEdited isSpace text search_id w).
Proof.
  intros H. unfold TextEdited. case_bool_decide.
  - eapply pointers_paired_eq; [apply pointers_RepositionPopup|done].
  - destruct H as (Hf & Hb & Hc & Hne). unfold pointers_paired. simpl.
    by destruct w, back_model_0.
Qed.

Lemma pointers_AddResults (id : Z) (results : ResultList)
  (w : GlobalSearchWidget) :
  pointers (AddResults foldCase lessThan FindCachedPixmap id results w)
  = pointers w.
Proof.
  destruct (AddResults_frame foldCase lessThan FindCachedPixmap id results w)
    as [rows [->| ->]]; [done|].
  rewrite pointers_RepositionPopup. by destruct w, current_model_0.
Qed.

Lemma pointers_paired_AddResults (id : Z) (results : ResultList)
  (w : GlobalSearchWidget) :
  pointers_paired w ->
  pointers_paired (AddResults foldCase lessThan FindCachedPixmap id results w).
Proof. apply pointers_paired_eq, pointers_AddResults. Qed.

Lemma pointers_LoadTracks (trigger : option QAction)
  (currentIndex : option (ProxyPtr * nat)) (tracks_id : Z)
  (w : GlobalSearchWidget) :
  pointers (LoadTracks lessThan trigger currentIndex tracks_id w) = pointers w.
Proof.
  unfold LoadTracks.
  destruct (LoadTracks_index _ _) as [[p row]|]; [|done].
  destruct (_ || _); [done|]. by destruct (_ !! _).
Qed.

(** With paired pointers [LazyLoadArt] always finds the item to mark. *)
Lemma LazyLoadArt_defined (proxy_index : option (ProxyPtr * nat)) (art_id : Z)
  (w : GlobalSearchWidget) :
  pointers_paired w ->
  exists w1, LazyLoadArt lessThan proxy_index art_id w = Some w1
             /\ pointers w1 = pointers w.
Proof.
  intros (Hf & _). unfold LazyLoadArt.
  destruct proxy_index as [[p row]|]; [|by eexists].
  destruct (_ !! row) as [[source_row item]|]; [|by eexists].
  destruct (Role_LazyLoadingArt item); [by eexists|].
  case_bool_decide as Hp; [by eexists|].
  subst p.
  rewrite bool_decide_eq_false_2 by (by intros ?).
  eexists. split; [done|]. by destruct w, front_model_0.
Qed.

(** With combining enabled and paired pointers, [add_result] appends the
    new item to the current model and runs the merge step on it. *)
Lemma add_result_rows (w : GlobalSearchWidget) (result : Result) :
  combine_identical_results_ w = true ->
  pointers_paired w ->
  rowsOf (add_result foldCase lessThan FindCachedPixmap w result)
    (current_model_ w)
  = combine_new_item foldCase lessThan (provider_order_ w)
      (rowsOf w (current_model_ w)
       ++ [{| Role_PrimaryResult := result;
              Role_AllResults := [result];
              Role_OrderArrived := order_arrived_counter_ w;
              DecorationRole := FindCachedPixmap result;
              Role_LazyLoadingArt := false |}]).
Proof.
  intros Hcomb (_ & _ & Hc & _). unfold add_result.
  rewrite Hcomb, (bool_decide_eq_true_2 _ Hc), rowsOf_set_rows.
  by rewrite decide_True.
Qed.

End PointerFacts.

(** ** Worked examples *)

Lemma money_equivalent : equivalent ascii_foldCase money_lastfm money_library.
Proof. vm_compute. repeat split. Defined.

Lemma CanCombineResults_iff_equivalent_witness :
  CanCombineResults ascii_foldCase ["library"] money_lastfm money_library
  <> CannotCombine.
Proof.
  apply (CanCombineResults_iff_equivalent ascii_foldCase ["library"]
           money_lastfm money_library).
  exact money_equivalent.
Defined.

(** With the default order (only "library" listed) the library's record
    is kept as the primary when the Last.fm result arrives later, in a
    buffer that holds another record between the two. *)
Lemma merge_prefers_greater_position_witness :
  combine_new_item ascii_foldCase lessThan_quality_arrival ["library"]
    [item_of money_library 0; item_of time_library 1; item_of money_lastfm 2]
  = [setAllResults [money_library; money_lastfm] (item_of money_library 0);
     item_of time_library 1].
Proof.
  destruct (merge_prefers_greater_position ascii_foldCase
              lessThan_quality_arrival ["library"]
              [item_of money_library 0; item_of time_library 1;
               item_of money_lastfm 2]
              2 0 2 0 (item_of money_lastfm 2) (item_of money_library 0)
              [None; Some 1%nat] []) as [Hright _].
  - reflexivity.
  - reflexivity.
  - lia.
  - repeat constructor; intros c' Hc'; [discriminate|].
    injection Hc' as <-. reflexivity.
  - exact money_equivalent.
  - destruct Hright as (_ & Hmerged & _); [reflexivity|exact Hmerged].
Defined.

(** With "library" at position 0 and "lastfm" at position 1, the merged
    record's primary is the Last.fm result, whichever of the two arrives
    first. *)
Lemma preference_counterexample :
  let order := ["library"; "lastfm"] in
  let w1 := AddResults_example 7 [money_lastfm]
              (AddResults_example 7 [money_library] (searching order)) in
  let w2 := AddResults_example 7 [money_library]
              (AddResults_example 7 [money_lastfm] (searching order)) in
  indexOf order (id (provider_ money_library)) = 0
  /\ indexOf order (id (provider_ money_lastfm)) = 1
  /\ equivalent ascii_foldCase money_library money_lastfm
  /\ map Role_PrimaryResult (rowsOf w1 (current_model_ w1)) = [money_lastfm]
  /\ map Role_AllResults (rowsOf w1 (current_model_ w1))
     = [[money_lastfm; money_library]]
  /\ map Role_PrimaryResult (rowsOf w2 (current_model_ w2)) = [money_lastfm]
  /\ money_lastfm <> money_library.
Proof. vm_compute. repeat split. discriminate. Qed.

Lemma AddResults_candidates_one_merge_example :
  combine_new_item ascii_foldCase lessThan_quality_arrival ["library"]
    [item_of money_library 0; item_of money_lastfm 1]
  = merge_with ascii_foldCase lessThan_quality_arrival ["library"]
      [item_of money_library 0; item_of money_lastfm 1] 1 0.
Proof. reflexivity. Qed.

Lemma AddResults_stale_id_dropped_witness :
  AddResults_example 6 [money_library] (searching ["library"])
  = searching ["library"].
Proof.
  apply (AddResults_stale_id_dropped ascii_foldCase lessThan_quality_arrival
           no_cached_pixmap 6 [money_library] (searching ["library"])).
  vm_compute. discriminate.
Defined.

(** A batch of the current search that arrives after the cutover is
    added to the front model. *)
Lemma AddResults_after_cutover_counterexample :
  let w := showing ["library"] in
  let w' := AddResults_example 7 [money_lastfm] w in
  last_id_ w = 7
  /\ rowsOf w (front_model_ w) = [item_of money_library 0]
  /\ front_model_ w' = front_model_ w
  /\ rowsOf w' (front_model_ w')
     = [setAllResults [money_library; money_lastfm] (item_of money_library 0)]
  /\ rowsOf w' (front_model_ w') <> rowsOf w (front_model_ w).
Proof. vm_compute. repeat split. discriminate. Qed.

(** The search "dark side": the library's batch arrives before the
    cutover and leaves the front model alone; the Last.fm batch arrives
    after it and is merged into the front model. *)
Lemma AddResults_changes_current_model_only_witness :
  let w := GlobalSearchWidget_new true ["library"] in
  let before := AddResults_example 7 [money_library] (searching ["library"]) in
  let cut := showing ["library"] in
  let after := AddResults_example 7 [money_lastfm] cut in
  (current_model_ before = back_model_ before
   /\ front_model_ before = front_model_ w
   /\ back_model_ before = back_model_ w
   /\ rowsOf before (front_model_ before) = rowsOf w (front_model_ w))
  /\ (front_model_ after = front_model_ cut
      /\ back_model_ after = back_model_ cut
      /\ current_model_ after = front_model_ after
      /\ rowsOf after (back_model_ after) = rowsOf cut (back_model_ cut)).
Proof.
  destruct (AddResults_changes_current_model_only latin1_isSpace ascii_foldCase
              lessThan_quality_arrival no_cached_pixmap "dark side" 7
              [(7, [money_library])] 7 [money_lastfm]
              (GlobalSearchWidget_new true ["library"]))
    as (_ & Hbefore & _ & Hafter & _).
  - vm_compute. lia.
  - vm_compute. discriminate.
  - vm_compute in Hbefore, Hafter. vm_compute.
    split; [exact Hbefore|exact Hafter].
Defined.

Lemma CombineResults_keeps_alternatives_witness :
  all_alternatives
    (CombineResults lessThan_quality_arrival
       [item_of money_library 0; item_of money_lastfm 1] 0 1)
  ≡ₚ all_alternatives [item_of money_library 0; item_of money_lastfm 1].
Proof.
  apply (CombineResults_keeps_alternatives lessThan_quality_arrival
           [item_of money_library 0; item_of money_lastfm 1] 0 1 0 1
           (item_of money_library 0) (item_of money_lastfm 1)).
  - lia.
  - reflexivity.
  - reflexivity.
Defined.

(** A short query typed while a result is showing leaves the popup
    showing. *)
Lemma TextEdited_short_query_counterexample :
  let w := showing ["library"] in
  let w' := TextEdited latin1_isSpace "ab" 8 w in
  String.length (trimmed latin1_isSpace "ab") = 2%nat
  /\ view_isVisible (view_ w) = true
  /\ view_isVisible (view_ w') = true
  /\ engine_ w' = engine_ w.
Proof. vm_compute. repeat split. Qed.

Lemma TextEdited_short_query_witness :
  view_isVisible
    (view_ (TextEdited latin1_isSpace " ab " 8 (searching ["library"])))
  = false.
Proof.
  destruct (TextEdited_short_query latin1_isSpace " ab " 8
              (searching ["library"]))
    as (_ & _ & _ & _ & _ & _ & _ & Hv).
  - vm_compute. lia.
  - rewrite Hv. reflexivity.
Defined.



Lemma ArtLoaded_after_cutover_ignored_witness :
  ArtLoaded 42 (PixmapData 1) (searching ["library"])
  = Some (searching ["library"]).
Proof.
  destruct (ArtLoaded_after_cutover_ignored lessThan_quality_arrival 42
              (PixmapData 1) (searching ["library"])) as (_ & _ & Habsent & _).
  apply Habsent. reflexivity.
Defined.

(** The scenario of the specification: art is requested with id 42 for
    the row that is showing, the models are swapped, then the art
    arrives. *)
Lemma ArtLoaded_scenario :
  exists w1,
    LazyLoadArt lessThan_quality_arrival (Some (ProxyB, 0%nat)) 42
      (showing ["library"]) = Some w1
    /\ art_requests_ w1 !! 42 = Some (ModelB, 0%nat)
    /\ ArtLoaded 42 (PixmapData 1) (SwapModels w1) = Some (SwapModels w1)
    /\ map DecorationRole (rowsOf (SwapModels w1) ModelB) = [None].
Proof. eexists. split; [vm_compute; reflexivity|]. vm_compute. repeat split. Qed.

Lemma LoadTracks_out_of_range_witness :
  LoadTracks lessThan_quality_arrival (Some add_) None 9
    (searching ["library"])
  = searching ["library"].
Proof.
  apply (LoadTracks_out_of_range lessThan_quality_arrival (Some add_) None 9
           (searching ["library"])).
  left. reflexivity.
Defined.

(** * Further properties of the widget *)

(** ** The equivalence test is an equivalence relation *)

Section EquivalenceFacts.

Variable foldCase : ascii -> ascii.

Lemma equivalent_refl (r : Result) : equivalent foldCase r r.
Proof.
  unfold equivalent, fields_equal, equal_CaseInsensitive.
  split; [done|]. split; [done|]. by destruct (type_ r).
Qed.

Lemma equivalent_sym (r1 r2 : Result) :
  equivalent foldCase r1 r2 -> equivalent foldCase r2 r1.
Proof.
  unfold equivalent, fields_equal, equal_CaseInsensitive.
  intros (Hq & Ht & Hf). rewrite <- Ht. split; [done|]. split; [done|].
  destruct (type_ r1); intuition congruence.
Qed.

Lemma equivalent_trans (r1 r2 r3 : Result) :
  equivalent foldCase r1 r2 -> equivalent foldCase r2 r3 ->
  equivalent foldCase r1 r3.
Proof.
  unfold equivalent, fields_equal, equal_CaseInsensitive.
  intros (Hq & Ht & Hf) (Hq' & Ht' & Hf'). rewrite <- Ht in Hf', Ht'.
  split; [congruence|]. split; [congruence|].
  destruct (type_ r1); intuition congruence.
Qed.

(** X1. Whether two results can be combined does not depend on which is the
    left one, nor on the provider order; and combinable results form
    classes: a result combines with itself, and two results that combine
    with a third combine with each other. *)
Theorem CanCombineResults_equivalence (order order' : list QString)
  (r1 r2 r3 : Result) :
  CanCombineResults foldCase order r1 r1 <> CannotCombine
  /\ (CanCombineResults foldCase order r1 r2 <> CannotCombine ->
      CanCombineResults foldCase order' r2 r1 <> CannotCombine)
  /\ (CanCombineResults foldCase order r1 r2 <> CannotCombine ->
      CanCombineResults foldCase order r2 r3 <> CannotCombine ->
      CanCombineResults foldCase order r1 r3 <> CannotCombine).
Proof.
  assert (forall o a b, equivalent foldCase a b ->
            CanCombineResults foldCase o a b <> CannotCombine) as Hcomb.
  { intros o a b H. rewrite (CanCombineResults_equivalent foldCase o a b H).
    by destruct (_ >? _). }
  split; [apply Hcomb, equivalent_refl|]. split.
  - intros H%CanCombineResults_combinable. by apply Hcomb, equivalent_sym.
  - intros H1%CanCombineResults_combinable H2%CanCombineResults_combinable.
    by apply Hcomb, (equivalent_trans r1 r2 r3).
Qed.

(** X2. When the providers of two combinable results have different positions
    in the provider order, the same result is kept as the primary
    whichever of the two is the left operand; with equal positions the
    left operand is kept on both sides. *)
Theorem CanCombineResults_preference_order (order : list QString)
  (r1 r2 : Result) :
  CanCombineResults foldCase order r1 r2 <> CannotCombine ->
  let p1 := indexOf order (id (provider_ r1)) in
  let p2 := indexOf order (id (provider_ r2)) in
  (p1 < p2 ->
   CanCombineResults foldCase order r1 r2 = RightPreferred
   /\ CanCombineResults foldCase order r2 r1 = LeftPreferred)
  /\ (p2 < p1 ->
      CanCombineResults foldCase order r1 r2 = LeftPreferred
      /\ CanCombineResults foldCase order r2 r1 = RightPreferred)
  /\ (p1 = p2 ->
      CanCombineResults foldCase order r1 r2 = LeftPreferred
      /\ CanCombineResults foldCase order r2 r1 = LeftPreferred).
Proof.
  intros H%CanCombineResults_combinable p1 p2.
  pose proof (CanCombineResults_equivalent foldCase order r1 r2 H) as H12.
  pose proof (CanCombineResults_equivalent foldCase order r2 r1
                (equivalent_sym _ _ H)) as H21.
  fold p1 p2 in H12, H21. rewrite H12, H21.
  destruct (Z.gtb_spec p2 p1), (Z.gtb_spec p1 p2);
    repeat split; intros; try done; lia.
Qed.

End EquivalenceFacts.

(** ** What one insertion does to the rows *)

Section InsertionFacts.

Variable foldCase : ascii -> ascii.
Variable lessThan : Item -> Item -> bool.

(** The rows after a merge of the items at two source rows. *)
Lemma merged_rows_perm (rows : list Item) (s_sup s_inf : nat) (a b : Item) :
  s_sup <> s_inf -> rows !! s_sup = Some a -> rows !! s_inf = Some b ->
  all_alternatives
    (delete s_inf
       (<[s_sup := setAllResults (Role_AllResults a ++ Role_AllResults b) a]>
          rows))
  ≡ₚ all_alternatives rows.
Proof.
  intros Hne Ha Hb.
  pose proof (lookup_lt_Some _ _ _ Ha) as Hlt.
  set (merged := setAllResults (Role_AllResults a ++ Role_AllResults b) a).
  assert (<[s_sup := merged]> rows !! s_inf = Some b) as Hb1
    by (by rewrite list_lookup_insert_ne).
  apply (Permutation_app_inv_l (Role_AllResults b)).
  rewrite <- all_alternatives_cons.
  rewrite <- (all_alternatives_perm _ _ (delete_Permutation _ _ _ Hb1)).
  rewrite insert_take_drop by done.
  rewrite <- (take_drop_middle rows s_sup a Ha) at 3.
  rewrite !all_alternatives_app, !all_alternatives_cons.
  unfold merged. simpl.
  rewrite <- (List.app_assoc (Role_AllResults a)).
  rewrite (Permutation_app_swap_app (Role_AllResults b)).
  apply Permutation_app_head.
  rewrite (Permutation_app_swap_app (Role_AllResults b)).
  done.
Qed.

Lemma merged_rows_length (rows : list Item) (s_sup s_inf : nat) (m b : Item) :
  rows !! s_inf = Some b ->
  (length (delete s_inf (<[s_sup := m]> rows)) + 1)%nat = length rows.
Proof.
  intros Hb. pose proof (lookup_lt_Some _ _ _ Hb).
  rewrite length_delete by (apply lookup_lt_is_Some; by rewrite length_insert).
  rewrite length_insert. lia.
Qed.

Lemma merged_rows_Forall (P : Item -> Prop) (rows : list Item)
  (s_sup s_inf : nat) (m : Item) :
  Forall P rows -> P m -> Forall P (delete s_inf (<[s_sup := m]> rows)).
Proof. intros H Hm. by apply Forall_delete, Forall_insert. Qed.

Lemma CanCombineResults_index_combinable (order : list QString)
  (rows : list Item) (left right s1 s2 : nat) (i1 i2 : Item) :
  proxy_to_source lessThan rows !! left = Some (s1, i1) ->
  proxy_to_source lessThan rows !! right = Some (s2, i2) ->
  CanCombineResults_index foldCase lessThan order rows left right
  <> CannotCombine ->
  equivalent foldCase (Role_PrimaryResult i1) (Role_PrimaryResult i2).
Proof.
  intros H1 H2. unfold CanCombineResults_index, proxy_data.
  rewrite H1, H2. simpl. apply CanCombineResults_combinable.
Qed.

(** The merge step either leaves the rows as they are, or merges two
    different rows whose primary results pass the equivalence test. *)
Lemma combine_new_item_cases (order : list QString) (rows : list Item) :
  combine_new_item foldCase lessThan order rows = rows
  \/ exists s_sup s_inf a b,
       s_sup <> s_inf /\ rows !! s_sup = Some a /\ rows !! s_inf = Some b
       /\ equivalent foldCase (Role_PrimaryResult a) (Role_PrimaryResult b)
       /\ combine_new_item foldCase lessThan order rows
          = delete s_inf
              (<[s_sup := setAllResults
                            (Role_AllResults a ++ Role_AllResults b) a]> rows).
Proof.
  unfold combine_new_item.
  destruct (mapFromSource lessThan rows (length rows - 1)) as [row|] eqn:Hrow;
    [|by left].
  destruct (mapFromSource_Some _ _ _ _ Hrow) as (it & Hmy & _ & Hlt).
  rewrite combine_scan_first, candidates_valid by done.
  destruct (list_find _ _) as [[i c]|] eqn:E; [|by left].
  apply list_find_Some in E as (Hc & Hcomb & _).
  apply list_elem_of_lookup_2, candidates_in_words_range in Hc as [Hc Hne];
    [|done].
  rewrite <- (proxy_to_source_length lessThan) in Hc.
  destruct (lookup_lt_is_Some_2 _ _ Hc) as [[s2 i2] H2].
  pose proof (CanCombineResults_index_combinable _ _ _ _ _ _ _ _ Hmy H2 Hcomb)
    as Heq.
  pose proof (proxy_to_source_lookup _ _ _ _ _ Hmy) as Hmy'.
  pose proof (proxy_to_source_lookup _ _ _ _ _ H2) as H2'.
  assert (length rows - 1 <> s2)%nat as Hsne
    by (by apply (proxy_to_source_inj lessThan rows row c _ _ it i2)).
  unfold combinable in Hcomb. unfold merge_with.
  destruct (CanCombineResults_index _ _ _ rows row c); [done| |]; right.
  - exists (length rows - 1)%nat, s2, it, i2.
    split; [done|]. split; [done|]. split; [done|]. split; [done|].
    by apply CombineResults_items.
  - exists s2, (length rows - 1)%nat, i2, it.
    split; [congruence|]. split; [done|]. split; [done|].
    split; [by apply equivalent_sym|]. by apply CombineResults_items.
Qed.

Lemma item_ok_merged (a b : Item) :
  item_ok foldCase a -> item_ok foldCase b ->
  equivalent foldCase (Role_PrimaryResult a) (Role_PrimaryResult b) ->
  item_ok foldCase
    (setAllResults (Role_AllResults a ++ Role_AllResults b) a).
Proof.
  intros [Ha1 Ha2] [Hb1 Hb2] Heq. unfold item_ok. simpl. split.
  - destruct (Role_AllResults a); [done|]. done.
  - apply Forall_app. split; [done|].
    eapply Forall_impl; [exact Hb2|]. intros r Hr. simpl in Hr.
    by apply (equivalent_trans foldCase _ (Role_PrimaryResult b)).
Qed.

Section OneWidget.

Variable FindCachedPixmap : Result -> option QPixmap.
Variable w : GlobalSearchWidget.

Lemma add_row_cases (rows : list Item) (result : Result) :
  let rows1 := rows ++ [new_item FindCachedPixmap w result] in
  add_row foldCase lessThan FindCachedPixmap w rows result = rows1
  \/ exists s_sup s_inf a b,
       s_sup <> s_inf /\ rows1 !! s_sup = Some a /\ rows1 !! s_inf = Some b
       /\ equivalent foldCase (Role_PrimaryResult a) (Role_PrimaryResult b)
       /\ add_row foldCase lessThan FindCachedPixmap w rows result
          = delete s_inf
              (<[s_sup := setAllResults
                            (Role_AllResults a ++ Role_AllResults b) a]> rows1).
Proof.
  intros rows1. unfold add_row. fold rows1.
  destruct (_ && _); [|by left]. apply combine_new_item_cases.
Qed.

Lemma add_row_alternatives (rows : list Item) (result : Result) :
  all_alternatives (add_row foldCase lessThan FindCachedPixmap w rows result)
  ≡ₚ all_alternatives rows ++ [result].
Proof.
  assert (all_alternatives (rows ++ [new_item FindCachedPixmap w result])
          = all_alternatives rows ++ [result]) as Hnew
    by (by rewrite all_alternatives_app).
  destruct (add_row_cases rows result)
    as [->|(s_sup & s_inf & a & b & Hne & Ha & Hb & _ & ->)]; [by rewrite Hnew|].
  by rewrite merged_rows_perm, Hnew.
Qed.

Lemma add_row_length (rows : list Item) (result : Result) :
  (length rows
   <= length (add_row foldCase lessThan FindCachedPixmap w rows result)
   <= S (length rows))%nat
  /\ (1 <= length (add_row foldCase lessThan FindCachedPixmap w rows result))%nat.
Proof.
  destruct (add_row_cases rows result)
    as [->|(s_sup & s_inf & a & b & Hne & Ha & Hb & _ & ->)].
  - rewrite length_app. simpl. lia.
  - pose proof (merged_rows_length _ s_sup s_inf
                  (setAllResults (Role_AllResults a ++ Role_AllResults b) a)
                  b Hb) as Hlen.
    rewrite length_app in Hlen. simpl in Hlen.
    pose proof (lookup_lt_Some _ _ _ Ha) as H1.
    pose proof (lookup_lt_Some _ _ _ Hb) as H2.
    rewrite length_app in H1, H2. simpl in H1, H2. lia.
Qed.

Lemma add_row_item_ok (rows : list Item) (result : Result) :
  Forall (item_ok foldCase) rows ->
  Forall (item_ok foldCase)
    (add_row foldCase lessThan FindCachedPixmap w rows result).
Proof.
  intros Hrows.
  assert (Forall (item_ok foldCase)
            (rows ++ [new_item FindCachedPixmap w result])) as Hrows1.
  { apply Forall_app. split; [done|]. apply Forall_singleton.
    split; [done|]. apply Forall_singleton, equivalent_refl. }
  destruct (add_row_cases rows result)
    as [->|(s_sup & s_inf & a & b & Hne & Ha & Hb & Heq & ->)]; [done|].
  apply merged_rows_Forall; [done|].
  rewrite Forall_forall in Hrows1.
  apply item_ok_merged; [| |done]; apply Hrows1;
    by eapply list_elem_of_lookup_2.
Qed.

Lemma add_row_arrival (rows : list Item) (result : Result) :
  Forall (fun it => 0 <= Role_OrderArrived it <= order_arrived_counter_ w) rows ->
  0 <= order_arrived_counter_ w ->
  Forall (fun it => 0 <= Role_OrderArrived it <= order_arrived_counter_ w)
    (add_row foldCase lessThan FindCachedPixmap w rows result).
Proof.
  intros Hrows Hc.
  assert (Forall (fun it => 0 <= Role_OrderArrived it <= order_arrived_counter_ w)
            (rows ++ [new_item FindCachedPixmap w result])) as Hrows1.
  { apply Forall_app. split; [done|]. apply Forall_singleton. simpl. lia. }
  destruct (add_row_cases rows result)
    as [->|(s_sup & s_inf & a & b & Hne & Ha & Hb & Heq & ->)]; [done|].
  apply merged_rows_Forall; [done|]. simpl.
  rewrite Forall_forall in Hrows1. apply Hrows1.
  by eapply list_elem_of_lookup_2.
Qed.

(** The whole loop, on the rows. *)
Lemma add_rows_alternatives (results : ResultList) (rows : list Item) :
  all_alternatives
    (fold_left (add_row foldCase lessThan FindCachedPixmap w) results rows)
  ≡ₚ all_alternatives rows ++ results.
Proof.
  revert rows. induction results as [|r results IH]; intros rows; simpl.
  - by rewrite app_nil_r.
  - rewrite IH, add_row_alternatives. by rewrite <- List.app_assoc.
Qed.

Lemma add_rows_length (results : ResultList) (rows : list Item) :
  (length rows
   <= length (fold_left (add_row foldCase lessThan FindCachedPixmap w)
                results rows)
   <= length rows + length results)%nat
  /\ (results <> [] ->
      (1 <= length (fold_left (add_row foldCase lessThan FindCachedPixmap w)
                      results rows))%nat).
Proof.
  revert rows. induction results as [|r results IH]; intros rows; simpl.
  - split; [lia|done].
  - destruct (IH (add_row foldCase lessThan FindCachedPixmap w rows r))
      as [IH1 _].
    destruct (add_row_length rows r) as [H1 H2]. split; [lia|]. intros _. lia.
Qed.

Lemma add_rows_item_ok (results : ResultList) (rows : list Item) :
  Forall (item_ok foldCase) rows ->
  Forall (item_ok foldCase)
    (fold_left (add_row foldCase lessThan FindCachedPixmap w) results rows).
Proof.
  revert rows. induction results as [|r results IH]; intros rows H; simpl;
    [done|]. by apply IH, add_row_item_ok.
Qed.

Lemma add_rows_arrival (results : ResultList) (rows : list Item) :
  Forall (fun it => 0 <= Role_OrderArrived it <= order_arrived_counter_ w) rows ->
  0 <= order_arrived_counter_ w ->
  Forall (fun it => 0 <= Role_OrderArrived it <= order_arrived_counter_ w)
    (fold_left (add_row foldCase lessThan FindCachedPixmap w) results rows).
Proof.
  revert rows. induction results as [|r results IH]; intros rows H Hc; simpl;
    [done|]. apply IH; [|done]. by apply add_row_arrival.
Qed.

End OneWidget.

(** [add_result] is [add_row] on the rows of the current model. *)
Lemma add_result_add_row (FindCachedPixmap : Result -> option QPixmap)
  (w : GlobalSearchWidget) (result : Result) :
  add_result foldCase lessThan FindCachedPixmap w result
  = set_rows (current_model_ w)
      (add_row foldCase lessThan FindCachedPixmap w
         (rowsOf w (current_model_ w)) result) w.
Proof.
  unfold add_result, add_row, new_item.
  destruct (combine_identical_results_ w); [|done]. simpl.
  by case_bool_decide.
Qed.

Lemma add_row_set_rows (FindCachedPixmap : Result -> option QPixmap)
  (w : GlobalSearchWidget) (m : ModelPtr) (rows0 : list Item) :
  add_row foldCase lessThan FindCachedPixmap (set_rows m rows0 w)
  = add_row foldCase lessThan FindCachedPixmap w.
Proof. done. Qed.

Lemma fold_add_result_add_row (FindCachedPixmap : Result -> option QPixmap)
  (results : ResultList) (w : GlobalSearchWidget) :
  fold_left (add_result foldCase lessThan FindCachedPixmap) results w
  = set_rows (current_model_ w)
      (fold_left (add_row foldCase lessThan FindCachedPixmap w) results
         (rowsOf w (current_model_ w))) w.
Proof.
  revert w. induction results as [|r results IH]; intros w; simpl.
  - by rewrite set_rows_same.
  - rewrite add_result_add_row, IH. simpl.
    rewrite add_row_set_rows, rowsOf_set_rows, decide_True by done.
    by destruct w, current_model_0.
Qed.

(** An accepted batch: the loop runs on the current model, the counter
    is incremented as an [int], the popup is repositioned. *)
Lemma AddResults_accepted (FindCachedPixmap : Result -> option QPixmap)
  (results : ResultList) (w : GlobalSearchWidget) :
  AddResults foldCase lessThan FindCachedPixmap (last_id_ w) results w
  = RepositionPopup
      (set_order_arrived_counter (int_wrap (order_arrived_counter_ w + 1))
         (set_rows (current_model_ w)
            (fold_left (add_row foldCase lessThan FindCachedPixmap w) results
               (rowsOf w (current_model_ w))) w)).
Proof.
  unfold AddResults. rewrite bool_decide_eq_false_2 by (by intros ?).
  by rewrite fold_add_result_add_row.
Qed.

End InsertionFacts.

Lemma AddResults_stale_drop (foldCase : ascii -> ascii)
  (lessThan : Item -> Item -> bool)
  (FindCachedPixmap : Result -> option QPixmap) (id : Z)
  (results : ResultList) (w : GlobalSearchWidget) :
  id <> last_id_ w ->
  AddResults foldCase lessThan FindCachedPixmap id results w = w.
Proof. intros H. unfold AddResults. by rewrite bool_decide_eq_true_2. Qed.

(** ** What every reachable widget satisfies *)

Section ReachableFacts.

Variable isSpace : ascii -> bool.
Variable foldCase : ascii -> ascii.
Variable lessThan : Item -> Item -> bool.

Lemma RepositionPopup_ok (w : GlobalSearchWidget) :
  base_ok foldCase w -> widget_ok foldCase (RepositionPopup w).
Proof.
  intros Hb. unfold RepositionPopup, HidePopup.
  case_bool_decide as He.
  - split; [exact Hb|]. by intros ?.
  - assert (rowsOf w (front_model_ w) <> []) as Hne
      by (by intros E; rewrite E in He).
    destruct (negb _); split; try exact Hb; by intros _.
Qed.

Lemma item_ok_setLazyLoadingArt (it : Item) :
  item_ok foldCase it -> item_ok foldCase (setLazyLoadingArt it).
Proof. done. Qed.

Lemma item_ok_setDecoration (p : QPixmap) (it : Item) :
  item_ok foldCase it -> item_ok foldCase (setDecoration p it).
Proof. done. Qed.

Lemma widget_ok_new (combine : bool) (order : list QString) :
  widget_ok foldCase (GlobalSearchWidget_new combine order).
Proof.
  split; [|by intros ?].
  split; [apply pointers_paired_new|]. split; [done|]. split; [done|].
  by intros [].
Qed.

Lemma widget_ok_TextEdited (text : QString) (search_id : Z)
  (w : GlobalSearchWidget) :
  widget_ok foldCase w ->
  widget_ok foldCase (TextEdited isSpace text search_id w).
Proof.
  intros [Hb Hp].
  pose proof (pointers_paired_TextEdited isSpace text search_id w (proj1 Hb))
    as Hpaired.
  unfold TextEdited in *. case_bool_decide; [by apply RepositionPopup_ok|].
  destruct Hb as ((_ & _ & _ & Hfb) & Hv & Hart & Hitems).
  split.
  - split; [exact Hpaired|]. split; [exact Hv|]. split; [exact Hart|].
    intros m. specialize (Hitems m).
    destruct w, back_model_0, m; simpl in *; done.
  - intros Hvis. specialize (Hp Hvis).
    destruct w, front_model_0, back_model_0; simpl in *; done.
Qed.

Lemma widget_ok_timeout (w : GlobalSearchWidget) :
  widget_ok foldCase w -> widget_ok foldCase (swap_models_timer_timeout w).
Proof.
  intros Hw. unfold swap_models_timer_timeout.
  destruct (swap_models_timer_ w); [|done].
  destruct Hw as (((Hf & Hk & Hc & Hfb) & Hv & Hart & Hitems) & _).
  unfold SwapModels. apply RepositionPopup_ok.
  split; [by repeat split|]. split; [done|]. split; [done|].
  exact Hitems.
Qed.

Lemma widget_ok_AddResults (FindCachedPixmap : Result -> option QPixmap)
  (id : Z) (results : ResultList) (w : GlobalSearchWidget) :
  widget_ok foldCase w ->
  widget_ok foldCase (AddResults foldCase lessThan FindCachedPixmap id results w).
Proof.
  intros Hw. destruct (decide (id = last_id_ w)) as [->|Hid];
    [|by rewrite AddResults_stale_drop].
  rewrite AddResults_accepted. apply RepositionPopup_ok.
  destruct Hw as ((Hpaired & Hv & Hart & Hitems) & _).
  set (rows' := fold_left (add_row foldCase lessThan FindCachedPixmap w) results
                  (rowsOf w (current_model_ w))).
  assert (Forall (item_ok foldCase) rows') as Hok
    by (by apply add_rows_item_ok).
  split; [exact Hpaired|]. split; [exact Hv|]. split; [exact Hart|].
  intros m. specialize (Hitems m).
  destruct w, current_model_0, m; simpl in *; done.
Qed.

Lemma widget_ok_ReloadSettings (s : Settings) (w : GlobalSearchWidget) :
  widget_ok foldCase w -> widget_ok foldCase (ReloadSettings s w).
Proof.
  intros ((Hpaired & Hv & Hart & Hitems) & Hp).
  split; [|exact Hp].
  split; [exact Hpaired|]. split; [exact Hv|]. split; [exact Hart|].
  exact Hitems.
Qed.

Lemma widget_ok_HidePopup (w : GlobalSearchWidget) :
  widget_ok foldCase w -> widget_ok foldCase (HidePopup w).
Proof.
  intros ((Hpaired & Hv & Hart & Hitems) & Hp).
  split; [|by intros ?].
  split; [exact Hpaired|]. split; [exact Hv|]. split; [exact Hart|].
  exact Hitems.
Qed.

Lemma widget_ok_UpdateTooltip (current : option (ProxyPtr * nat))
  (active : Z) (w : GlobalSearchWidget) :
  widget_ok foldCase w -> widget_ok foldCase (UpdateTooltip current active w).
Proof.
  intros Hw. unfold UpdateTooltip.
  destruct (negb _); [|destruct current; [|done]];
    destruct Hw as ((Hpaired & Hv & Hart & Hitems) & Hp);
    (split; [|exact Hp]);
    (split; [exact Hpaired|]); (split; [exact Hv|]);
    (split; [exact Hart|]); exact Hitems.
Qed.

(** Changing the request tables and the engine log keeps a widget well
    formed, as long as the art requests still point into the front
    model. *)
Lemma widget_ok_set_requests (calls : list EngineCall)
  (art : gmap Z (ModelPtr * nat)) (track : gmap Z (option QAction))
  (w : GlobalSearchWidget) :
  (forall id m row, art !! id = Some (m, row) -> m = front_model_ w) ->
  widget_ok foldCase w -> widget_ok foldCase (set_requests calls art track w).
Proof.
  intros Hart' ((Hpaired & Hv & Hart & Hitems) & Hp).
  split; [|exact Hp].
  split; [exact Hpaired|]. split; [exact Hv|]. split; [exact Hart'|].
  exact Hitems.
Qed.

(** Replacing one item of the front model by an item with the same
    results keeps a widget well formed. *)
Lemma widget_ok_update_front (row : nat) (item item' : Item)
  (w : GlobalSearchWidget) :
  rowsOf w (front_model_ w) !! row = Some item ->
  Role_PrimaryResult item' = Role_PrimaryResult item ->
  Role_AllResults item' = Role_AllResults item ->
  widget_ok foldCase w ->
  widget_ok foldCase
    (set_rows (front_model_ w) (<[row := item']> (rowsOf w (front_model_ w))) w).
Proof.
  intros Hrow H1 H2 ((Hpaired & Hv & Hart & Hitems) & Hp).
  assert (item_ok foldCase item') as Hok'.
  { pose proof (Hitems (front_model_ w)) as Hf. rewrite Forall_forall in Hf.
    specialize (Hf item (list_elem_of_lookup_2 _ _ _ Hrow)).
    unfold item_ok in *. by rewrite H1, H2. }
  split.
  - split; [exact Hpaired|]. split; [exact Hv|]. split; [exact Hart|].
    intros m. rewrite rowsOf_set_rows. case_decide; [|apply Hitems].
    by apply Forall_insert.
  - intros Hvis. specialize (Hp Hvis).
    change (front_model_ (set_rows _ _ w)) with (front_model_ w).
    rewrite rowsOf_set_rows, decide_True by done.
    intros E. apply Hp. apply (f_equal length) in E.
    rewrite length_insert in E. by destruct (rowsOf w (front_model_ w)).
Qed.

Lemma widget_ok_LoadTracks (trigger : option QAction)
  (currentIndex : option (ProxyPtr * nat)) (tracks_id : Z)
  (w : GlobalSearchWidget) :
  widget_ok foldCase w ->
  widget_ok foldCase (LoadTracks lessThan trigger currentIndex tracks_id w).
Proof.
  intros Hw. unfold LoadTracks.
  destruct (LoadTracks_index _ _) as [[p row]|]; [|done].
  destruct (_ || _); [done|]. destruct (_ !! _); [|done].
  apply widget_ok_set_requests; [|done]. apply Hw.
Qed.

Lemma widget_ok_TracksLoaded (id : Z) (mime_data : option MimeData)
  (w : GlobalSearchWidget) :
  widget_ok foldCase w -> widget_ok foldCase (fst (TracksLoaded id mime_data w)).
Proof.
  intros Hw. unfold TracksLoaded.
  destruct (track_requests_ w !! id); [|done].
  destruct mime_data; simpl; (apply widget_ok_set_requests; [|done]); apply Hw.
Qed.

Lemma widget_ok_ArtLoaded (id : Z) (pixmap : QPixmap)
  (w w' : GlobalSearchWidget) :
  ArtLoaded id pixmap w = Some w' ->
  widget_ok foldCase w -> widget_ok foldCase w'.
Proof.
  unfold ArtLoaded. intros H Hw.
  destruct (art_requests_ w !! id) as [[m row]|] eqn:Hid; [|by injection H as <-].
  case_bool_decide; [done|].
  destruct (rowsOf w (front_model_ w) !! row) as [item|] eqn:Hrow; [|done].
  injection H as <-.
  apply (widget_ok_set_requests _ _ _
           (set_rows (front_model_ w)
              (<[row := setDecoration pixmap item]> (rowsOf w (front_model_ w)))
              w)).
  - intros id' m' row' Hl.
    destruct (decide (id = id')) as [->|Hne];
      [by rewrite lookup_delete_eq in Hl|].
    rewrite lookup_delete_ne in Hl by done.
    destruct Hw as ((_ & _ & Hart & _) & _). by apply (Hart id' m' row').
  - by apply (widget_ok_update_front row item).
Qed.

Lemma widget_ok_LazyLoadArt (proxy_index : option (ProxyPtr * nat))
  (art_id : Z) (w w' : GlobalSearchWidget) :
  LazyLoadArt lessThan proxy_index art_id w = Some w' ->
  widget_ok foldCase w -> widget_ok foldCase w'.
Proof.
  unfold LazyLoadArt. intros H Hw.
  destruct proxy_index as [[p row]|]; [|by injection H as <-].
  destruct (_ !! row) as [[source_row item]|] eqn:Hrow;
    [|by injection H as <-].
  destruct (Role_LazyLoadingArt item); [by injection H as <-|].
  case_bool_decide as Hp; [by injection H as <-|].
  case_bool_decide as Hm; [done|].
  injection H as <-.
  apply proxy_to_source_lookup in Hrow. rewrite Hm in *.
  apply (widget_ok_set_requests _ _ _
           (set_rows (front_model_ w)
              (<[source_row := setLazyLoadingArt item]> (rowsOf w (front_model_ w)))
              w)).
  - intros id' m' row' Hl.
    destruct (decide (art_id = id')) as [->|Hne].
    + rewrite lookup_insert_eq in Hl. by injection Hl as <- _.
    + rewrite lookup_insert_ne in Hl by done.
      destruct Hw as ((_ & _ & Hart & _) & _). by apply (Hart id' m' row').
  - by apply (widget_ok_update_front source_row item).
Qed.

(** Every reachable widget is well formed. *)
Lemma reachable_ok (w : GlobalSearchWidget) :
  reachable isSpace foldCase lessThan w -> widget_ok foldCase w.
Proof.
  induction 1.
  - apply widget_ok_new.
  - by apply widget_ok_ReloadSettings.
  - by apply widget_ok_TextEdited.
  - by apply widget_ok_timeout.
  - by apply widget_ok_AddResults.
  - by eapply widget_ok_LazyLoadArt.
  - by eapply widget_ok_ArtLoaded.
  - by apply widget_ok_LoadTracks.
  - by apply widget_ok_TracksLoaded.
  - by apply widget_ok_HidePopup.
  - apply RepositionPopup_ok. by destruct IHreachable.
  - by apply widget_ok_UpdateTooltip.
Qed.

End ReachableFacts.

(** ** Accepted batches *)

Section BatchFacts.

Variable isSpace : ascii -> bool.
Variable foldCase : ascii -> ascii.
Variable lessThan : Item -> Item -> bool.
Variable FindCachedPixmap : Result -> option QPixmap.

Lemma AddResults_accepted_rows (results : ResultList) (w : GlobalSearchWidget)
  (m : ModelPtr) :
  rowsOf (AddResults foldCase lessThan FindCachedPixmap (last_id_ w) results w) m
  = if decide (current_model_ w = m)
    then fold_left (add_row foldCase lessThan FindCachedPixmap w) results
           (rowsOf w (current_model_ w))
    else rowsOf w m.
Proof.
  rewrite AddResults_accepted, RepositionPopup_rows.
  by destruct w, current_model_0, m.
Qed.

(** [++] on an [int] that is below [INT_MAX] adds one; at [INT_MAX] it
    wraps around to [INT_MIN]. *)
Lemma int_wrap_in_range (z : Z) :
  -2147483648 <= z <= 2147483647 -> int_wrap z = z.
Proof.
  intros H. unfold int_wrap. rewrite Z.mod_small by lia. lia.
Qed.

Lemma AddResults_accepted_fields (results : ResultList) (w : GlobalSearchWidget) :
  let w' := AddResults foldCase lessThan FindCachedPixmap (last_id_ w) results w in
  order_arrived_counter_ w' = int_wrap (order_arrived_counter_ w + 1)
  /\ last_id_ w' = last_id_ w
  /\ swap_models_timer_ w' = swap_models_timer_ w
  /\ pointers w' = pointers w
  /\ art_requests_ w' = art_requests_ w
  /\ engine_ w' = engine_ w.
Proof.
  intros w'. unfold w'. rewrite AddResults_accepted.
  set (w1 := set_order_arrived_counter _ _).
  destruct (RepositionPopup_requests w1) as (He & Hid & Hc & _).
  destruct (RepositionPopup_pointers w1) as (_ & _ & _ & Ht & Ha).
  rewrite He, Hid, Hc, Ht, Ha, pointers_RepositionPopup.
  unfold w1. by destruct w, current_model_0.
Qed.

(** X3. A batch carrying the id of the current search adds every one of
    its results to the current model exactly once, as a new record or as
    an alternative of an existing one: the alternatives held afterwards
    are those held before together with the batch.  The model never
    shrinks and grows by at most one row per result.  The arrival
    counter is incremented once, as an [int], whatever the size of the
    batch: it advances by one, except that at 2147483647 it wraps around
    to -2147483648. *)
Theorem AddResults_keeps_every_result (results : ResultList)
  (w : GlobalSearchWidget) :
  let w' := AddResults foldCase lessThan FindCachedPixmap (last_id_ w) results w in
  all_alternatives (rowsOf w' (current_model_ w))
  ≡ₚ all_alternatives (rowsOf w (current_model_ w)) ++ results
  /\ (length (rowsOf w (current_model_ w))
      <= length (rowsOf w' (current_model_ w))
      <= length (rowsOf w (current_model_ w)) + length results)%nat
  /\ order_arrived_counter_ w' = int_wrap (order_arrived_counter_ w + 1)
  /\ (-2147483648 <= order_arrived_counter_ w < 2147483647 ->
      order_arrived_counter_ w' = order_arrived_counter_ w + 1)
  /\ (order_arrived_counter_ w = 2147483647 ->
      order_arrived_counter_ w' = -2147483648).
Proof.
  intros w'. unfold w'.
  rewrite AddResults_accepted_rows, decide_True by done.
  split; [apply add_rows_alternatives|].
  split; [apply add_rows_length|].
  destruct (AddResults_accepted_fields results w) as [Hc _].
  split; [exact Hc|]. split.
  - intros Hrange. rewrite Hc. apply int_wrap_in_range. lia.
  - intros Hmax. rewrite Hc, Hmax. reflexivity.
Qed.

(** The cutover leaves the arrival counter, [current_model_] and the rows
    of both models alone. *)
Lemma timeout_search_state (w : GlobalSearchWidget) :
  let w' := swap_models_timer_timeout w in
  order_arrived_counter_ w' = order_arrived_counter_ w
  /\ current_model_ w' = current_model_ w
  /\ (forall m, rowsOf w' m = rowsOf w m).
Proof.
  unfold swap_models_timer_timeout.
  destruct (swap_models_timer_ w) eqn:Ht; [|done].
  unfold SwapModels, RepositionPopup, HidePopup. simpl.
  destruct w as [? ? ? mA mB ? bm ? ? ? ? [vm vis] ? ? ? ? ? ?]. simpl in *.
  destruct bm; simpl; case_bool_decide as He; simpl;
    try (destruct vis; simpl); repeat split; try done; by intros [].
Qed.

(** One event of a search whose counter is at most [k], below
    2147483647: the records of the current model still arrived before
    the value of the counter, which is at most [k + 1]. *)
Lemma search_event_arrival (e : SearchEvent) (k : Z) (w : GlobalSearchWidget) :
  k < 2147483647 ->
  0 <= order_arrived_counter_ w <= k ->
  Forall (fun it => 0 <= Role_OrderArrived it < order_arrived_counter_ w)
    (rowsOf w (current_model_ w)) ->
  let w' := search_event foldCase lessThan FindCachedPixmap w e in
  0 <= order_arrived_counter_ w' <= k + 1
  /\ Forall (fun it => 0 <= Role_OrderArrived it < order_arrived_counter_ w')
       (rowsOf w' (current_model_ w')).
Proof.
  intros Hk Hc Harr. destruct e as [id results|]; simpl.
  - destruct (decide (id = last_id_ w)) as [->|Hid];
      [|rewrite AddResults_stale_drop by done; split; [lia|done]].
    destruct (AddResults_accepted_fields results w) as (Hc' & _ & _ & Hp & _).
    unfold pointers in Hp. injection Hp as _ _ Hcur _ _ _.
    rewrite Hc', Hcur, AddResults_accepted_rows, decide_True by done.
    rewrite int_wrap_in_range by lia. split; [lia|].
    assert (Forall (fun it => 0 <= Role_OrderArrived it
                              <= order_arrived_counter_ w)
              (fold_left (add_row foldCase lessThan FindCachedPixmap w) results
                 (rowsOf w (current_model_ w)))) as Hle.
    { apply add_rows_arrival; [|lia].
      eapply Forall_impl; [exact Harr|]. simpl. intros; lia. }
    eapply Forall_impl; [exact Hle|]. simpl. intros; lia.
  - destruct (timeout_search_state w) as (-> & -> & ->).
    split; [lia|done].
Qed.

Lemma search_events_arrival (events : list SearchEvent) (k : Z)
  (w : GlobalSearchWidget) :
  k + Z.of_nat (length events) <= 2147483647 ->
  0 <= order_arrived_counter_ w <= k ->
  Forall (fun it => 0 <= Role_OrderArrived it < order_arrived_counter_ w)
    (rowsOf w (current_model_ w)) ->
  let w' := fold_left (search_event foldCase lessThan FindCachedPixmap)
              events w in
  0 <= order_arrived_counter_ w' <= k + Z.of_nat (length events)
  /\ Forall (fun it => 0 <= Role_OrderArrived it < order_arrived_counter_ w')
       (rowsOf w' (current_model_ w')).
Proof.
  revert k w. induction events as [|e events IH]; intros k w Hk Hc Harr.
  - simpl in *. split; [lia|done].
  - simpl fold_left. simpl length in *.
    destruct (search_event_arrival e k w) as [Hc1 Harr1]; [lia|done|done|].
    destruct (IH (k + 1) _ ltac:(lia) Hc1 Harr1) as [Hc2 Harr2].
    split; [lia|exact Harr2].
Qed.

(** X10. Arrival numbers within one search.  After [TextEdited] started a
    search, and through any sequence of at most 2147483647 events of that
    search (batches of results, of whatever id, and expiries of the
    cutover timer), the arrival number of every record of the current
    model is at least 0 and below the arrival counter, and the counter
    is at most the number of events. *)
Theorem arrival_numbers_within_search (text : QString) (search_id : Z)
  (events : list SearchEvent) (w : GlobalSearchWidget) (row : nat)
  (it : Item) :
  let w' := fold_left (search_event foldCase lessThan FindCachedPixmap) events
              (TextEdited isSpace text search_id w) in
  (3 <= String.length (trimmed isSpace text))%nat ->
  Z.of_nat (length events) <= 2147483647 ->
  rowsOf w' (current_model_ w') !! row = Some it ->
  0 <= Role_OrderArrived it < order_arrived_counter_ w'
  /\ order_arrived_counter_ w' <= Z.of_nat (length events).
Proof.
  intros w' Hlen Hmax Hrow.
  destruct (TextEdited_long isSpace text search_id w Hlen)
    as (_ & Hp & Hempty & _ & _ & Hzero & _).
  unfold pointers in Hp. injection Hp as _ _ Hcur _ _ _.
  destruct (search_events_arrival events 0 (TextEdited isSpace text search_id w))
    as [Hc Harr].
  - lia.
  - rewrite Hzero. lia.
  - rewrite Hcur, Hempty. apply Forall_nil_2.
  - fold w' in Hc, Harr. rewrite Forall_forall in Harr.
    split; [|lia]. exact (Harr it (list_elem_of_lookup_2 _ _ _ Hrow)).
Qed.

Lemma add_rows_without_combining (results : ResultList) (rows : list Item)
  (w : GlobalSearchWidget) :
  combine_identical_results_ w = false ->
  fold_left (add_row foldCase lessThan FindCachedPixmap w) results rows
  = rows ++ map (new_item FindCachedPixmap w) results.
Proof.
  intros Hc. revert rows.
  induction results as [|r results IH]; intros rows; simpl.
  - by rewrite app_nil_r.
  - rewrite IH. unfold add_row. rewrite Hc. simpl.
    by rewrite <- List.app_assoc.
Qed.

(** X4. With combining switched off, an accepted batch is appended to the
    current model as it is: one record per result, in the order of the
    batch, each with the batch's arrival number, its cached pixmap if
    there is one, and itself as only alternative. *)
Theorem AddResults_without_combining (results : ResultList)
  (w : GlobalSearchWidget) :
  combine_identical_results_ w = false ->
  rowsOf (AddResults foldCase lessThan FindCachedPixmap (last_id_ w) results w)
    (current_model_ w)
  = rowsOf w (current_model_ w)
    ++ map (fun result =>
              {| Role_PrimaryResult := result;
                 Role_AllResults := [result];
                 Role_OrderArrived := order_arrived_counter_ w;
                 DecorationRole := FindCachedPixmap result;
                 Role_LazyLoadingArt := false |}) results.
Proof.
  intros Hc. rewrite AddResults_accepted_rows, decide_True by done.
  by rewrite add_rows_without_combining.
Qed.

(** X5. Starting a new search leaves what is on screen alone: for a query
    of at least three characters, when front and back are different
    models, [TextEdited] empties the back model only; the rows of the
    front model, the view and both request tables are as before, and the
    engine is told to cancel the previous search before it is asked for
    the new one. *)
Theorem TextEdited_keeps_visible_results (text : QString) (id : Z)
  (w : GlobalSearchWidget) :
  (3 <= String.length (trimmed isSpace text))%nat ->
  front_model_ w <> back_model_ w ->
  let w1 := TextEdited isSpace text id w in
  front_model_ w1 = front_model_ w
  /\ rowsOf w1 (front_model_ w1) = rowsOf w (front_model_ w)
  /\ rowsOf w1 (current_model_ w1) = []
  /\ view_ w1 = view_ w
  /\ art_requests_ w1 = art_requests_ w
  /\ track_requests_ w1 = track_requests_ w
  /\ engine_ w1 = engine_ w ++ [CancelSearch (last_id_ w);
                                SearchAsync (trimmed isSpace text)].
Proof.
  intros Hlen Hfb w1.
  destruct (TextEdited_long isSpace text id w Hlen)
    as (_ & Hp & Hrows & Hother & _ & _ & Hview & Heng).
  fold w1 in Hp, Hrows, Hother, Hview, Heng.
  unfold pointers in Hp. injection Hp as Hf _ Hc _ _ _.
  rewrite Hf, Hc. split; [done|]. split; [by apply Hother|].
  split; [done|]. split; [done|]. split; [|split; [|done]].
  - unfold w1, TextEdited. by rewrite bool_decide_eq_false_2 by lia.
  - unfold w1, TextEdited. by rewrite bool_decide_eq_false_2 by lia.
Qed.

(** X6. A search from start to cutover: after [TextEdited] with a query of
    at least three characters, a batch with the id of that search, and
    the expiry of the timer, the front model is the former back model and
    holds exactly the results of the batch (nothing of earlier searches),
    the popup is showing exactly when the batch was not empty, and no art
    request is pending. *)
Theorem search_then_cutover (text : QString) (id : Z) (results : ResultList)
  (w : GlobalSearchWidget) :
  (3 <= String.length (trimmed isSpace text))%nat ->
  let w1 := TextEdited isSpace text id w in
  let w2 := AddResults foldCase lessThan FindCachedPixmap id results w1 in
  let w3 := swap_models_timer_timeout w2 in
  front_model_ w3 = back_model_ w
  /\ all_alternatives (rowsOf w3 (front_model_ w3)) ≡ₚ results
  /\ view_model (view_ w3) = front_proxy_ w3
  /\ view_isVisible (view_ w3) = negb (bool_decide (results = []))
  /\ art_requests_ w3 = ∅
  /\ engine_ w3
     = engine_ w ++ [CancelSearch (last_id_ w);
                     SearchAsync (trimmed isSpace text)].
Proof.
  intros Hlen w1 w2 w3.
  destruct (TextEdited_long isSpace text id w Hlen)
    as (Hid & Hp1 & Hrows1 & _ & Ht1 & _ & _ & He1).
  fold w1 in Hid, Hp1, Hrows1, Ht1, He1.
  assert (current_model_ w1 = back_model_ w /\ back_model_ w1 = back_model_ w)
    as [Hcur1 Hback1] by (unfold pointers in Hp1; by injection Hp1).
  pose proof (AddResults_accepted_fields results w1) as Hfields.
  pose proof (AddResults_accepted_rows results w1 (back_model_ w)) as Hr2.
  rewrite Hid in Hfields, Hr2. fold w2 in Hfields, Hr2. simpl in Hfields.
  destruct Hfields as (_ & _ & Ht2 & Hp2 & _ & He2).
  rewrite decide_True, Hcur1, Hrows1 in Hr2 by done.
  assert (back_model_ w2 = back_model_ w) as Hback2.
  { unfold pointers in Hp2. injection Hp2 as _ -> _ _ _ _. done. }
  rewrite Ht1 in Ht2.
  destruct (timeout_running w2 Ht2) as (Hf3 & Hfp3 & Hv3 & Hr3 & Hvis & Ha3 & He3).
  fold w3 in Hf3, Hfp3, Hv3, Hr3, Hvis, Ha3, He3.
  rewrite Hback2 in Hf3, Hvis.
  assert (rowsOf w3 (front_model_ w3)
          = fold_left (add_row foldCase lessThan FindCachedPixmap w1) results [])
    as Hfront by (by rewrite Hf3, Hr3, Hr2).
  split; [done|].
  split; [by rewrite Hfront, add_rows_alternatives|].
  split; [by rewrite Hv3, Hfp3|].
  split.
  - rewrite Hvis, Hr2. f_equal. apply bool_decide_ext.
    destruct (add_rows_length foldCase lessThan FindCachedPixmap w1 results [])
      as [Hl Hne].
    split.
    + intros E. destruct results; [done|]. specialize (Hne ltac:(done)). lia.
    + by intros ->.
  - split; [done|]. by rewrite He3, He2, He1.
Qed.

End BatchFacts.

(** ** Reachable widgets *)

Section ReachableTheorems.

Variable isSpace : ascii -> bool.
Variable foldCase : ascii -> ascii.
Variable lessThan : Item -> Item -> bool.

(** X7. In every widget the constructor and the slots produce, each proxy
    pointer designates the proxy of the model its model pointer
    designates, front and back are different models, the view shows the
    front proxy, and every pending art request points into the front
    model. *)
Theorem reachable_pointers (w : GlobalSearchWidget) :
  reachable isSpace foldCase lessThan w ->
  sourceModel (front_proxy_ w) = front_model_ w
  /\ sourceModel (back_proxy_ w) = back_model_ w
  /\ sourceModel (current_proxy_ w) = current_model_ w
  /\ front_model_ w <> back_model_ w
  /\ view_model (view_ w) = front_proxy_ w
  /\ (forall id m row,
        art_requests_ w !! id = Some (m, row) -> m = front_model_ w).
Proof.
  intros H. apply reachable_ok in H.
  destruct H as (((Hf & Hb & Hc & Hfb) & Hv & Hart & _) & _).
  repeat split; try done.
Qed.

(** X8. The popup is never showing an empty list: in every reachable
    widget whose popup is visible the front model has at least one
    row. *)
Theorem reachable_popup_has_rows (w : GlobalSearchWidget) :
  reachable isSpace foldCase lessThan w ->
  view_isVisible (view_ w) = true ->
  (0 < length (rowsOf w (front_model_ w)))%nat.
Proof.
  intros H Hvis. apply reachable_ok in H. destruct H as [_ Hp].
  specialize (Hp Hvis). destruct (rowsOf w (front_model_ w)); [done|].
  simpl. lia.
Qed.

(** X9. Every record of either model of a reachable widget lists its
    primary result first among its alternatives, and all its alternatives
    pass the equivalence test against the primary. *)
Theorem reachable_records_well_formed (w : GlobalSearchWidget) (m : ModelPtr)
  (row : nat) (it : Item) :
  reachable isSpace foldCase lessThan w ->
  rowsOf w m !! row = Some it ->
  Role_AllResults it !! 0%nat = Some (Role_PrimaryResult it)
  /\ (forall r, r ∈ Role_AllResults it ->
        equivalent foldCase (Role_PrimaryResult it) r)
  /\ (forall order r, r ∈ Role_AllResults it ->
        CanCombineResults foldCase order (Role_PrimaryResult it) r
        <> CannotCombine).
Proof.
  intros H Hrow. apply reachable_ok in H.
  destruct H as ((_ & _ & _ & Hitems) & _).
  specialize (Hitems m). rewrite Forall_forall in Hitems.
  destruct (Hitems it (list_elem_of_lookup_2 _ _ _ Hrow)) as [Hhead Hall].
  rewrite Forall_forall in Hall.
  split; [by destruct (Role_AllResults it)|]. split; [exact Hall|].
  intros order r Hr.
  rewrite (CanCombineResults_equivalent foldCase order _ _ (Hall r Hr)).
  by destruct (_ >? _).
Qed.

(** X11. In a reachable widget [LazyLoadArt] always finds the item of the
    front model it has to mark. *)
Theorem reachable_LazyLoadArt_defined (proxy_index : option (ProxyPtr * nat))
  (art_id : Z) (w : GlobalSearchWidget) :
  reachable isSpace foldCase lessThan w ->
  exists w', LazyLoadArt lessThan proxy_index art_id w = Some w'.
Proof.
  intros H. apply reachable_ok in H. destruct H as ((Hp & _) & _).
  destruct (LazyLoadArt_defined lessThan proxy_index art_id w Hp) as (w' & ? & _).
  by exists w'.
Qed.

(** X12. Activating a row of a reachable widget while the tooltip is not
    showing asks the engine for the tracks of the row's primary result
    and records the trigger under the id the engine returns. *)
Theorem reachable_LoadTracks_primary (trigger : option QAction)
  (currentIndex : option (ProxyPtr * nat)) (tracks_id : Z)
  (w : GlobalSearchWidget) (p : ProxyPtr) (row : nat) (it : Item) :
  reachable isSpace foldCase lessThan w ->
  LoadTracks_index currentIndex w = Some (p, row) ->
  proxy_data lessThan (rowsOf w (sourceModel p)) row = Some it ->
  LoadTracks_result_index w = 0 ->
  let w' := LoadTracks lessThan trigger currentIndex tracks_id w in
  engine_ w' = engine_ w ++ [LoadTracksAsync (Role_PrimaryResult it)]
  /\ track_requests_ w' !! tracks_id = Some trigger.
Proof.
  intros H Hidx Hdata Hzero.
  assert (exists s, proxy_to_source lessThan (rowsOf w (sourceModel p)) !! row
                    = Some (s, it)) as [s Hs].
  { unfold proxy_data in Hdata.
    destruct (_ !! row) as [[s it']|]; [|done]. injection Hdata as ->.
    by exists s. }
  apply proxy_to_source_lookup in Hs.
  apply reachable_ok in H. destruct H as ((_ & _ & _ & Hitems) & _).
  specialize (Hitems (sourceModel p)). rewrite Forall_forall in Hitems.
  destruct (Hitems it (list_elem_of_lookup_2 _ _ _ Hs)) as [Hhead _].
  apply (LoadTracks_in_range lessThan trigger currentIndex tracks_id w p row);
    [done|lia|].
  unfold data_AllResults. rewrite Hdata, Hzero. simpl.
  by destruct (Role_AllResults it).
Qed.

End ReachableTheorems.

(** ** Art requests *)

Section ArtFacts.

Variable lessThan : Item -> Item -> bool.

(** The widget after [LazyLoadArt] has issued a request. *)
Lemma LazyLoadArt_issued (p : ProxyPtr) (row source_row : nat) (item : Item)
  (art_id : Z) (w : GlobalSearchWidget) :
  proxy_to_source lessThan (rowsOf w (sourceModel p)) !! row
  = Some (source_row, item) ->
  Role_LazyLoadingArt item = false ->
  p = front_proxy_ w -> sourceModel p = front_model_ w ->
  exists w1,
    LazyLoadArt lessThan (Some (p, row)) art_id w = Some w1
    /\ art_requests_ w1 = <[art_id := (front_model_ w, source_row)]> (art_requests_ w)
    /\ engine_ w1 = engine_ w ++ [LoadArtAsync (Role_PrimaryResult item)]
    /\ pointers w1 = pointers w
    /\ track_requests_ w1 = track_requests_ w
    /\ (forall m, rowsOf w1 m
                  = if decide (front_model_ w = m)
                    then <[source_row := setLazyLoadingArt item]>
                           (rowsOf w (front_model_ w))
                    else rowsOf w m)
    /\ rowsOf w (front_model_ w) !! source_row = Some item.
Proof.
  intros Hrow Hlazy Hp Hm. unfold LazyLoadArt. rewrite Hrow, Hlazy.
  rewrite bool_decide_eq_false_2 by (by intros ?).
  rewrite bool_decide_eq_false_2 by (by intros ?).
  apply proxy_to_source_lookup in Hrow. rewrite Hm in *.
  eexists. split; [done|]. simpl.
  split; [done|]. split; [done|].
  split; [by destruct w, front_model_0|]. split; [done|].
  split; [|done]. intros m. by destruct w, front_model_0, m.
Qed.

(** X13. Art is requested once per record: after [LazyLoadArt] has issued a
    request for a row of the front proxy, a further [LazyLoadArt] for any
    index that shows the same source row changes nothing and sends
    nothing to the engine. *)
Theorem LazyLoadArt_not_repeated (p : ProxyPtr) (row source_row : nat)
  (item : Item) (art_id : Z) (w : GlobalSearchWidget) :
  proxy_to_source lessThan (rowsOf w (sourceModel p)) !! row
  = Some (source_row, item) ->
  Role_LazyLoadingArt item = false ->
  p = front_proxy_ w -> sourceModel p = front_model_ w ->
  exists w1,
    LazyLoadArt lessThan (Some (p, row)) art_id w = Some w1
    /\ engine_ w1 = engine_ w ++ [LoadArtAsync (Role_PrimaryResult item)]
    /\ forall row' item' art_id',
         proxy_to_source lessThan (rowsOf w1 (sourceModel p)) !! row'
         = Some (source_row, item') ->
         LazyLoadArt lessThan (Some (p, row')) art_id' w1 = Some w1.
Proof.
  intros Hrow Hlazy Hp Hm.
  destruct (LazyLoadArt_issued p row source_row item art_id w Hrow Hlazy Hp Hm)
    as (w1 & H1 & _ & Heng & _ & _ & Hrows & Hitem).
  exists w1. split; [done|]. split; [done|].
  intros row' item' art_id' Hrow'.
  unfold LazyLoadArt. rewrite Hrow'.
  apply proxy_to_source_lookup in Hrow'.
  rewrite Hm, Hrows, decide_True in Hrow' by done.
  rewrite list_lookup_insert_eq in Hrow' by (by eapply lookup_lt_Some).
  by injection Hrow' as <-.
Qed.

(** The widget after [ArtLoaded] has found the request. *)
Lemma ArtLoaded_delivered (id : Z) (pixmap : QPixmap) (row : nat) (item : Item)
  (w : GlobalSearchWidget) :
  art_requests_ w !! id = Some (front_model_ w, row) ->
  rowsOf w (front_model_ w) !! row = Some item ->
  exists w2,
    ArtLoaded id pixmap w = Some w2
    /\ art_requests_ w2 = delete id (art_requests_ w)
    /\ pointers w2 = pointers w
    /\ engine_ w2 = engine_ w
    /\ track_requests_ w2 = track_requests_ w
    /\ (forall m, rowsOf w2 m
                  = if decide (front_model_ w = m)
                    then <[row := setDecoration pixmap item]>
                           (rowsOf w (front_model_ w))
                    else rowsOf w m).
Proof.
  intros Hid Hrow. unfold ArtLoaded. rewrite Hid.
  rewrite bool_decide_eq_false_2 by (by intros ?). rewrite Hrow.
  eexists. split; [done|]. simpl. split; [done|].
  split; [by destruct w, front_model_0|]. split; [done|]. split; [done|].
  intros m. by destruct w, front_model_0, m.
Qed.

(** X14. An art request and its answer: when [LazyLoadArt] issues a request
    under a fresh id and [ArtLoaded] delivers the pixmap for that id
    before any other slot has run, the pixmap becomes the decoration of
    the record the request was made for, every other row of either model
    is untouched, the request table is as it was before the request, and
    a second delivery for the same id changes nothing. *)
Theorem ArtLoaded_answers_request (p : ProxyPtr) (row source_row : nat)
  (item : Item) (art_id : Z) (pixmap pixmap' : QPixmap)
  (w : GlobalSearchWidget) :
  proxy_to_source lessThan (rowsOf w (sourceModel p)) !! row
  = Some (source_row, item) ->
  Role_LazyLoadingArt item = false ->
  p = front_proxy_ w -> sourceModel p = front_model_ w ->
  art_requests_ w !! art_id = None ->
  exists w1 w2,
    LazyLoadArt lessThan (Some (p, row)) art_id w = Some w1
    /\ ArtLoaded art_id pixmap w1 = Some w2
    /\ (forall m, rowsOf w2 m
                  = if decide (front_model_ w = m)
                    then <[source_row := setDecoration pixmap
                                           (setLazyLoadingArt item)]>
                           (rowsOf w (front_model_ w))
                    else rowsOf w m)
    /\ art_requests_ w2 = art_requests_ w
    /\ ArtLoaded art_id pixmap' w2 = Some w2.
Proof.
  intros Hrow Hlazy Hp Hm Hfresh.
  destruct (LazyLoadArt_issued p row source_row item art_id w Hrow Hlazy Hp Hm)
    as (w1 & H1 & Hart & _ & Hptr & _ & Hrows & Hitem).
  assert (front_model_ w1 = front_model_ w) as Hf1
    by (unfold pointers in Hptr; by injection Hptr).
  pose proof (lookup_lt_Some _ _ _ Hitem) as Hlt.
  destruct (ArtLoaded_delivered art_id pixmap source_row
              (setLazyLoadingArt item) w1)
    as (w2 & H2 & Hart2 & _ & _ & _ & Hrows2).
  { by rewrite Hart, lookup_insert_eq, Hf1. }
  { rewrite Hf1, Hrows, decide_True by done. by apply list_lookup_insert_eq. }
  assert (art_requests_ w2 = art_requests_ w) as Hart2'
    by (by rewrite Hart2, Hart, delete_insert_eq, delete_id).
  exists w1, w2. split; [done|]. split; [done|]. split; [|split; [done|]].
  - intros m. rewrite Hrows2, Hf1. case_decide as E.
    + rewrite Hrows, decide_True by done. by rewrite list_insert_insert_eq.
    + by rewrite Hrows, decide_False.
  - unfold ArtLoaded. by rewrite Hart2', Hfresh.
Qed.

End ArtFacts.

(** ** Track requests *)

(** X15. A track request is answered once: the first [TracksLoaded] for a
    pending id removes the entry, whether tracks were loaded or not, and
    emits [AddToPlaylist] exactly when they were; a second delivery for
    the same id emits nothing and changes nothing.  Nothing but the track
    request table is touched. *)
Theorem TracksLoaded_once (id : Z) (trigger : option QAction)
  (mime_data mime_data' : option MimeData) (w : GlobalSearchWidget) :
  track_requests_ w !! id = Some trigger ->
  let w' := fst (TracksLoaded id mime_data w) in
  snd (TracksLoaded id mime_data w) = mark_mime_data trigger <$> mime_data
  /\ track_requests_ w' = delete id (track_requests_ w)
  /\ set_requests (engine_ w) (art_requests_ w) (track_requests_ w) w' = w
  /\ TracksLoaded id mime_data' w' = (w', None).
Proof.
  intros Hid. unfold TracksLoaded at 1 2. rewrite Hid.
  assert (forall w0, track_requests_ w0 = delete id (track_requests_ w) ->
            TracksLoaded id mime_data' w0 = (w0, None)) as Hagain.
  { intros w0 H0. unfold TracksLoaded. by rewrite H0, lookup_delete_eq. }
  destruct mime_data; simpl; (split; [done|]); (split; [done|]);
    (split; [by destruct w|]); by apply Hagain.
Qed.

Section ActivationFacts.

Variable lessThan : Item -> Item -> bool.

(** X16. From an activation to the playlist: when [LoadTracks] issues a
    request for an alternative within range and the engine answers it
    with loaded tracks, the payload emitted with [AddToPlaylist] has
    [from_doubleclick_] set exactly for a double click, [play_now_] and
    [override_user_settings_] set exactly for the two play actions,
    [enqueue_now_] exactly for the queue action and [clear_first_]
    exactly for the two replace actions, on top of the flags the payload
    already carried. *)
Theorem activation_marks_payload (trigger : option QAction)
  (currentIndex : option (ProxyPtr * nat)) (tracks_id : Z)
  (w : GlobalSearchWidget) (p : ProxyPtr) (row : nat) (result : Result)
  (m : MimeData) :
  LoadTracks_index currentIndex w = Some (p, row) ->
  0 <= LoadTracks_result_index w ->
  data_AllResults lessThan w p row !! Z.to_nat (LoadTracks_result_index w)
  = Some result ->
  let w1 := LoadTracks lessThan trigger currentIndex tracks_id w in
  exists m',
    snd (TracksLoaded tracks_id (Some m) w1) = Some m'
    /\ from_doubleclick_ m'
       = from_doubleclick_ m || bool_decide (trigger = None)
    /\ play_now_ m'
       = play_now_ m || bool_decide (trigger = Some add_and_play_
                                     \/ trigger = Some replace_and_play_)
    /\ override_user_settings_ m'
       = override_user_settings_ m
         || bool_decide (trigger = Some add_and_play_
                         \/ trigger = Some replace_and_play_)
    /\ enqueue_now_ m'
       = enqueue_now_ m || bool_decide (trigger = Some add_and_queue_)
    /\ clear_first_ m'
       = clear_first_ m || bool_decide (trigger = Some replace_
                                        \/ trigger = Some replace_and_play_).
Proof.
  intros Hidx Hpos Hres w1.
  destruct (LoadTracks_in_range lessThan trigger currentIndex tracks_id w p row
              result Hidx Hpos Hres) as [_ Hreq].
  fold w1 in Hreq.
  exists (mark_mime_data trigger m). unfold TracksLoaded. rewrite Hreq. simpl.
  split; [done|].
  destruct m as [[] [] [] [] []], trigger as [[]|]; simpl; repeat split;
    try done.
Qed.

End ActivationFacts.

(** ** Settings *)

Section SettingsFacts.

Variable foldCase : ascii -> ascii.
Variable lessThan : Item -> Item -> bool.

Lemma indexOf_library (x : QString) :
  indexOf ["library"] x = if String.eqb "library" x then 0 else -1.
Proof. unfold indexOf. simpl. by destruct (String.eqb "library" x). Qed.

(** X17. With no provider order stored, [ReloadSettings] makes "library" the
    only listed provider; a record of the library and an equivalent
    record of any other provider are then merged into one record whose
    primary is the library's result, whichever of the two arrived
    first, and which holds the alternatives of both. *)
Theorem default_settings_prefer_library (s : Settings)
  (w : GlobalSearchWidget) (lib other : Item) :
  stored_provider_order s = None ->
  id (provider_ (Role_PrimaryResult lib)) = "library" ->
  id (provider_ (Role_PrimaryResult other)) <> "library" ->
  equivalent foldCase (Role_PrimaryResult lib) (Role_PrimaryResult other) ->
  let order := provider_order_ (ReloadSettings s w) in
  order = ["library"]
  /\ combine_new_item foldCase lessThan order [lib; other]
     = [setAllResults (Role_AllResults lib ++ Role_AllResults other) lib]
  /\ combine_new_item foldCase lessThan order [other; lib]
     = [setAllResults (Role_AllResults lib ++ Role_AllResults other) lib].
Proof.
  intros Hs Hlib Hother Heq order.
  assert (order = ["library"]) as -> by (unfold order; simpl; by rewrite Hs).
  split; [done|].
  assert (indexOf ["library"] (id (provider_ (Role_PrimaryResult lib))) = 0)
    as Hi1 by (by rewrite Hlib).
  assert (indexOf ["library"] (id (provider_ (Role_PrimaryResult other))) = -1)
    as Hi2.
  { rewrite indexOf_library.
    destruct (String.eqb_spec "library"
                (id (provider_ (Role_PrimaryResult other)))); [|done].
    by destruct Hother. }
  pose proof (CanCombineResults_equivalent foldCase ["library"] _ _ Heq) as H1.
  pose proof (CanCombineResults_equivalent foldCase ["library"] _ _
                (equivalent_sym _ _ _ Heq)) as H2.
  rewrite Hi1, Hi2 in H1, H2. simpl in H1, H2.
  split.
  - rewrite combine_new_item_pair; rewrite H2; done.
  - rewrite combine_new_item_pair; rewrite H1; done.
Qed.

End SettingsFacts.

(** ** The provider buttons *)

Section OrderFacts.

Variable foldCase : ascii -> ascii.

Lemma compare_ge_trans (a b c : QString) :
  0 <= compare_CaseInsensitive foldCase c b ->
  0 <= compare_CaseInsensitive foldCase b a ->
  0 <= compare_CaseInsensitive foldCase c a.
Proof.
  revert a b. induction c as [|z c IH]; intros [|x a] [|y b]; simpl;
    try lia.
  destruct (Z.eqb_spec (code (foldCase z) - code (foldCase y)) 0),
           (Z.eqb_spec (code (foldCase y) - code (foldCase x)) 0),
           (Z.eqb_spec (code (foldCase z) - code (foldCase x)) 0);
    try lia.
  apply IH.
Qed.

Lemma compare_lt_ge (a b : QString) :
  compare_CaseInsensitive foldCase a b < 0 ->
  0 <= compare_CaseInsensitive foldCase b a.
Proof.
  revert b. induction a as [|x a IH]; intros [|y b]; simpl; try lia.
  destruct (Z.eqb_spec (code (foldCase x) - code (foldCase y)) 0),
           (Z.eqb_spec (code (foldCase y) - code (foldCase x)) 0);
    try lia.
  apply IH.
Qed.

End OrderFacts.

Lemma QString_less_asym (a b : QString) :
  QString_less a b = true -> QString_less b a = false.
Proof.
  unfold QString_less. rewrite Z.ltb_lt, Z.ltb_ge. apply compare_lt_ge.
Qed.

Lemma QString_not_less_trans (a b c : QString) :
  QString_less b a = false -> QString_less c b = false ->
  QString_less c a = false.
Proof.
  unfold QString_less. rewrite !Z.ltb_ge. intros H1 H2.
  by apply (compare_ge_trans _ a b c).
Qed.

Lemma names_sorted_insert (n y : QString) (N1 N2 : list QString) :
  names_sorted (N1 ++ y :: N2) ->
  Forall (fun x => QString_less n x = false) N1 ->
  QString_less n y = true ->
  names_sorted (N1 ++ n :: y :: N2).
Proof.
  unfold names_sorted. rewrite !StronglySorted_app.
  intros (H12 & H1 & H2) Hn Hy. rewrite Forall_forall in Hn.
  split; [|split; [done|]].
  - intros x1 x2 Hx1 [->|Hx2]%elem_of_cons; [by apply Hn|by apply H12].
  - apply StronglySorted_cons. split; [|done].
    apply StronglySorted_cons in H2 as [Hy2 _].
    apply Forall_cons. split; [by apply QString_less_asym|].
    eapply Forall_impl; [exact Hy2|]. simpl. intros z Hz.
    apply (QString_not_less_trans n y z); [by apply QString_less_asym|done].
Qed.

Lemma names_sorted_snoc (n : QString) (N : list QString) :
  names_sorted N -> Forall (fun x => QString_less n x = false) N ->
  names_sorted (N ++ [n]).
Proof.
  unfold names_sorted. rewrite StronglySorted_app.
  intros HN Hn. rewrite Forall_forall in Hn.
  split; [|split; [done|]].
  - intros x1 x2 Hx1 ->%list_elem_of_singleton. by apply Hn.
  - apply StronglySorted_cons. split; [done|]. constructor.
Qed.

Lemma layout_names_app (l1 l2 : list LayoutItem) :
  layout_names (l1 ++ l2) = layout_names l1 ++ layout_names l2.
Proof. apply omap_app. Qed.

Lemma layout_providers_app (l1 l2 : list LayoutItem) :
  layout_providers (l1 ++ l2) = layout_providers l1 ++ layout_providers l2.
Proof. apply omap_app. Qed.

Lemma insertion_point_Some (n : QString) (items : list LayoutItem) (i j : nat) :
  insertion_point n items i = Some j ->
  exists l1 q c l2,
    items = l1 ++ ProviderButton q c :: l2
    /\ j = (i + length l1)%nat
    /\ QString_less n (name q) = true
    /\ Forall (fun x => QString_less n x = false) (layout_names l1).
Proof.
  revert i. induction items as [|[q c|] items IH]; intros i; simpl; [done| |].
  - destruct (QString_less n (name q)) eqn:Hq.
    + intros [= <-]. exists [], q, c, items. simpl.
      repeat split; [lia|done|constructor].
    + intros (l1 & q' & c' & l2 & -> & -> & Hq' & Hl1)%IH.
      exists (ProviderButton q c :: l1), q', c', l2. simpl.
      repeat split; [lia|done|]. by constructor.
  - intros (l1 & q' & c' & l2 & -> & -> & Hq' & Hl1)%IH.
    exists (LayoutSpacer :: l1), q', c', l2. simpl.
    repeat split; [lia|done|done].
Qed.

Lemma insertion_point_None (n : QString) (items : list LayoutItem) (i : nat) :
  insertion_point n items i = None ->
  Forall (fun x => QString_less n x = false) (layout_names items).
Proof.
  revert i. induction items as [|[q c|] items IH]; intros i; simpl.
  - constructor.
  - destruct (QString_less n (name q)) eqn:Hq; [done|].
    intros H%IH. by constructor.
  - apply IH.
Qed.

Section ProviderFacts.

Variable is_provider_enabled : SearchProvider -> bool.

(** Where [ProviderAdded] puts the button of a provider it did not know. *)
Lemma ProviderAdded_fresh (provider : SearchProvider) (bar : ProviderBar) :
  provider ∉ provider_buttons_ bar ->
  last (provider_layout bar) = Some LayoutSpacer ->
  exists l1 l2,
    provider_layout bar = l1 ++ l2
    /\ ProviderAdded is_provider_enabled provider bar
       = mkProviderBar (provider_buttons_ bar ++ [provider])
           (l1 ++ ProviderButton provider (is_provider_enabled provider) :: l2)
           (error_log bar)
    /\ last l2 = Some LayoutSpacer
    /\ Forall (fun x => QString_less (name provider) x = false)
         (layout_names l1)
    /\ (layout_names l2 = []
        \/ exists y N2, layout_names l2 = y :: N2
                        /\ QString_less (name provider) y = true).
Proof.
  intros Hnew Hlast. unfold ProviderAdded.
  rewrite bool_decide_eq_false_2 by done.
  destruct (insertion_point _ _ 0) as [j|] eqn:Hpoint.
  - apply insertion_point_Some in Hpoint
      as (l1 & q & c & l2 & Hlayout & -> & Hq & Hl1).
    exists l1, (ProviderButton q c :: l2). rewrite Hlayout in *.
    split; [done|]. split.
    { unfold insertWidget. rewrite (proj2 (Z.ltb_ge _ _)) by lia.
      rewrite Nat2Z.id. simpl.
      by rewrite take_app_length, drop_app_length. }
    split; [by rewrite last_app_cons in Hlast|]. split; [done|].
    right. by exists (name q), (layout_names l2).
  - apply insertion_point_None in Hpoint.
    apply last_Some in Hlast as [l Hlayout]. rewrite Hlayout in *.
    exists l, [LayoutSpacer]. split; [done|]. split.
    { unfold insertWidget. rewrite length_app. simpl.
      rewrite (proj2 (Z.ltb_ge _ _)) by lia.
      replace (Z.to_nat (Z.of_nat (length l + 1) - 1)) with (length l) by lia.
      by rewrite take_app_length, drop_app_length. }
    split; [done|]. split; [|by left].
    rewrite layout_names_app in Hpoint. simpl in Hpoint.
    by rewrite app_nil_r in Hpoint.
Qed.

Lemma ProviderAdded_known (provider : SearchProvider) (bar : ProviderBar) :
  provider ∈ provider_buttons_ bar ->
  ProviderAdded is_provider_enabled provider bar
  = mkProviderBar (provider_buttons_ bar) (provider_layout bar)
      (error_log bar ++ [provider]).
Proof. intros H. unfold ProviderAdded. by rewrite bool_decide_eq_true_2. Qed.

Lemma bar_ok_ProviderAdded (provider : SearchProvider) (bar : ProviderBar) :
  bar_ok bar -> bar_ok (ProviderAdded is_provider_enabled provider bar).
Proof.
  intros (Hnodup & Hperm & Hlast & Hsorted).
  destruct (decide (provider ∈ provider_buttons_ bar)) as [Hin|Hnew];
    [by rewrite ProviderAdded_known|].
  destruct (ProviderAdded_fresh provider bar Hnew Hlast)
    as (l1 & l2 & Hlayout & -> & Hlast2 & Hl1 & Hl2).
  rewrite Hlayout in Hperm, Hsorted.
  rewrite layout_names_app in Hsorted. rewrite layout_providers_app in Hperm.
  unfold bar_ok. simpl. split; [|split; [|split]].
  - apply NoDup_app. split; [done|]. split; [|apply NoDup_singleton].
    intros x Hx ->%list_elem_of_singleton. done.
  - rewrite layout_providers_app. simpl.
    rewrite <- Permutation_middle, <- Permutation_cons_append.
    by rewrite Hperm.
  - by rewrite last_app_cons, last_cons, Hlast2.
  - rewrite layout_names_app. simpl.
    destruct Hl2 as [Hnil|(y & N2 & Hy & Hless)].
    + rewrite Hnil in *. rewrite app_nil_r in Hsorted.
      by apply names_sorted_snoc.
    + rewrite Hy in *. by apply names_sorted_insert.
Qed.

End ProviderFacts.

Lemma filter_all {A} (P : A -> Prop) `{!forall x, Decision (P x)} (l : list A) :
  Forall P l -> filter P l = l.
Proof.
  induction 1 as [|x l Hx _ IH]; [done|].
  by rewrite filter_cons, decide_True, IH.
Qed.

Lemma layout_providers_filter (provider : SearchProvider)
  (l : list LayoutItem) :
  layout_providers (filter (fun item => is_button_of provider item = false) l)
  = filter (fun q => q <> provider) (layout_providers l).
Proof.
  induction l as [|[q c|] l IH]; [done| |].
  - rewrite filter_cons. simpl. case_bool_decide as Hq.
    + rewrite decide_False by done. subst q.
      change (layout_providers (ProviderButton provider c :: l))
        with (provider :: layout_providers l).
      rewrite filter_cons, decide_False by (by intros ?). done.
    + rewrite decide_True by done.
      change (layout_providers (ProviderButton q c :: l))
        with (q :: layout_providers l).
      rewrite filter_cons, decide_True by done.
      change (layout_providers (ProviderButton q c :: ?x))
        with (q :: layout_providers x).
      by rewrite <- IH.
  - rewrite filter_cons, decide_True by done. done.
Qed.

Lemma layout_names_filter_Forall (P : QString -> Prop)
  (f : LayoutItem -> Prop) `{!forall x, Decision (f x)} (l : list LayoutItem) :
  Forall P (layout_names l) -> Forall P (layout_names (filter f l)).
Proof.
  induction l as [|[q c|] l IH]; [done| |].
  - change (layout_names (ProviderButton q c :: l))
      with (name q :: layout_names l).
    intros [Hq Hl]%Forall_cons. rewrite filter_cons.
    case_decide; [|by apply IH].
    change (layout_names (ProviderButton q c :: ?x))
      with (name q :: layout_names x).
    apply Forall_cons. split; [done|by apply IH].
  - change (layout_names (LayoutSpacer :: l)) with (layout_names l).
    intros Hl. rewrite filter_cons. case_decide; by apply IH.
Qed.

Lemma names_sorted_filter (f : LayoutItem -> Prop)
  `{!forall x, Decision (f x)} (l : list LayoutItem) :
  names_sorted (layout_names l) -> names_sorted (layout_names (filter f l)).
Proof.
  unfold names_sorted. induction l as [|[q c|] l IH]; [done| |].
  - change (layout_names (ProviderButton q c :: l))
      with (name q :: layout_names l).
    intros [Hq Hl]%StronglySorted_cons. rewrite filter_cons.
    case_decide; [|by apply IH].
    change (layout_names (ProviderButton q c :: ?x))
      with (name q :: layout_names x).
    apply StronglySorted_cons. split; [|by apply IH].
    by apply layout_names_filter_Forall.
  - change (layout_names (LayoutSpacer :: l)) with (layout_names l).
    intros Hl. rewrite filter_cons. case_decide; by apply IH.
Qed.

Lemma ProviderRemoved_unknown (provider : SearchProvider) (bar : ProviderBar) :
  provider ∉ provider_buttons_ bar ->
  ProviderRemoved provider bar
  = mkProviderBar (provider_buttons_ bar) (provider_layout bar)
      (error_log bar ++ [provider]).
Proof. intros H. unfold ProviderRemoved. by rewrite bool_decide_eq_false_2. Qed.

Lemma bar_ok_ProviderRemoved (provider : SearchProvider) (bar : ProviderBar) :
  bar_ok bar -> bar_ok (ProviderRemoved provider bar).
Proof.
  intros (Hnodup & Hperm & Hlast & Hsorted).
  destruct (decide (provider ∈ provider_buttons_ bar)) as [Hin|Hnew];
    [|by rewrite ProviderRemoved_unknown].
  unfold ProviderRemoved. rewrite bool_decide_eq_true_2 by done.
  unfold bar_ok. simpl. split; [|split; [|split]].
  - by apply NoDup_filter.
  - by rewrite layout_providers_filter, Hperm.
  - apply last_Some in Hlast as [l ->].
    rewrite filter_app, filter_cons, decide_True by done.
    by rewrite filter_nil, last_snoc.
  - by apply names_sorted_filter.
Qed.

Section ProviderTheorems.

Variable is_provider_enabled : SearchProvider -> bool.

(** X18. [ProviderAdded] keeps the provider bar in order: the buttons stay
    one per registered provider and sorted by provider name, with the
    spacer last.  A provider that was not registered gets exactly one new
    button, put between the existing items, and nothing is logged. *)
Theorem ProviderAdded_keeps_bar (provider : SearchProvider)
  (bar : ProviderBar) :
  bar_ok bar ->
  let bar' := ProviderAdded is_provider_enabled provider bar in
  bar_ok bar'
  /\ provider ∈ provider_buttons_ bar'
  /\ (provider ∉ provider_buttons_ bar ->
      error_log bar' = error_log bar
      /\ exists l1 l2,
           provider_layout bar = l1 ++ l2
           /\ provider_layout bar'
              = l1 ++ ProviderButton provider (is_provider_enabled provider)
                        :: l2).
Proof.
  intros Hok bar'. split; [by apply bar_ok_ProviderAdded|].
  destruct (decide (provider ∈ provider_buttons_ bar)) as [Hin|Hnew].
  - unfold bar'. rewrite ProviderAdded_known by done. by split.
  - destruct (ProviderAdded_fresh is_provider_enabled provider bar Hnew)
      as (l1 & l2 & Hlayout & Hbar' & _); [apply Hok|].
    unfold bar'. rewrite Hbar'. simpl. split.
    + apply elem_of_app. right. by apply list_elem_of_singleton.
    + intros _. split; [done|]. by exists l1, l2.
Qed.

(** X19. Adding the same provider a second time creates no second button:
    the buttons and the layout stay as the first call left them, and the
    provider is written to the error log. *)
Theorem ProviderAdded_twice (provider : SearchProvider) (bar : ProviderBar) :
  let bar1 := ProviderAdded is_provider_enabled provider bar in
  ProviderAdded is_provider_enabled provider bar1
  = mkProviderBar (provider_buttons_ bar1) (provider_layout bar1)
      (error_log bar1 ++ [provider]).
Proof.
  intros bar1. apply ProviderAdded_known. unfold bar1, ProviderAdded.
  case_bool_decide; simpl; [done|].
  apply elem_of_app. right. by apply list_elem_of_singleton.
Qed.

(** X20. Removing a provider right after it was added gives back the
    provider bar as it was: buttons, layout and error log. *)
Theorem ProviderRemoved_undoes_ProviderAdded (provider : SearchProvider)
  (bar : ProviderBar) :
  bar_ok bar ->
  provider ∉ provider_buttons_ bar ->
  ProviderRemoved provider (ProviderAdded is_provider_enabled provider bar)
  = bar.
Proof.
  intros (Hnodup & Hperm & Hlast & _) Hnew.
  destruct (ProviderAdded_fresh is_provider_enabled provider bar Hnew Hlast)
    as (l1 & l2 & Hlayout & -> & _).
  unfold ProviderRemoved. simpl.
  rewrite bool_decide_eq_true_2
    by (apply elem_of_app; right; by apply list_elem_of_singleton).
  assert (Forall (fun item => is_button_of provider item = false)
            (provider_layout bar)) as Hnone.
  { apply Forall_forall. intros [q c|] Hitem; [|done]. simpl.
    apply bool_decide_eq_false_2. intros ->. apply Hnew.
    rewrite <- Hperm. apply list_elem_of_omap.
    by exists (ProviderButton provider c). }
  rewrite Hlayout in Hnone. apply Forall_app in Hnone as [Hn1 Hn2].
  rewrite !filter_app, !filter_cons. simpl.
  rewrite bool_decide_eq_true_2 by done.
  rewrite (decide_False (P := provider <> provider)) by (by intros H; apply H).
  rewrite (decide_False (P := true = false)) by done.
  rewrite filter_nil, app_nil_r.
  rewrite (filter_all _ l1 Hn1), (filter_all _ l2 Hn2), <- Hlayout.
  rewrite filter_all; [by destruct bar|].
  apply Forall_forall. by intros q Hq ->.
Qed.

(** X21. [ProviderRemoved] keeps the provider bar in order and leaves no
    button of the removed provider; for a provider that is not registered
    it changes neither buttons nor layout and writes the provider to the
    error log. *)
Theorem ProviderRemoved_keeps_bar (provider : SearchProvider)
  (bar : ProviderBar) :
  bar_ok bar ->
  let bar' := ProviderRemoved provider bar in
  bar_ok bar'
  /\ (provider ∉ provider_buttons_ bar')
  /\ (provider ∉ layout_providers (provider_layout bar'))
  /\ (provider ∉ provider_buttons_ bar ->
      provider_buttons_ bar' = provider_buttons_ bar
      /\ provider_layout bar' = provider_layout bar
      /\ error_log bar' = error_log bar ++ [provider]).
Proof.
  intros Hok bar'.
  pose proof (bar_ok_ProviderRemoved provider bar Hok) as Hok'.
  fold bar' in Hok'. split; [done|].
  assert (provider ∉ provider_buttons_ bar') as Hgone.
  { unfold bar', ProviderRemoved. case_bool_decide; simpl; [|done].
    rewrite list_elem_of_filter. by intros [? _]. }
  split; [done|]. split.
  - destruct Hok' as (_ & Hperm & _). by rewrite Hperm.
  - intros Hnew. unfold bar'. by rewrite ProviderRemoved_unknown.
Qed.

Lemma Init_buttons (providers : list SearchProvider) (bar : ProviderBar)
  (p : SearchProvider) :
  p ∈ provider_buttons_ (Init is_provider_enabled providers bar)
  <-> p ∈ provider_buttons_ bar \/ p ∈ providers.
Proof.
  unfold Init. revert bar.
  induction providers as [|q providers IH]; intros bar; simpl.
  - rewrite elem_of_nil. tauto.
  - rewrite IH, elem_of_cons. unfold ProviderAdded.
    case_bool_decide as Hq; simpl.
    + split; [tauto|]. intros [?|[->|?]]; tauto.
    + rewrite elem_of_app, list_elem_of_singleton. tauto.
Qed.

(** X22. [Init] makes a button for every provider of the engine: starting
    from a provider bar in order, the bar is in order afterwards (buttons
    sorted by name, spacer last, one button per provider), and its
    providers are those it had together with the engine's. *)
Theorem Init_registers_every_provider (providers : list SearchProvider)
  (bar : ProviderBar) :
  bar_ok bar ->
  let bar' := Init is_provider_enabled providers bar in
  bar_ok bar'
  /\ (forall p, p ∈ layout_providers (provider_layout bar')
                <-> p ∈ provider_buttons_ bar \/ p ∈ providers)
  /\ NoDup (layout_providers (provider_layout bar')).
Proof.
  intros Hok bar'.
  assert (forall b, bar_ok b -> bar_ok (Init is_provider_enabled providers b))
    as Hinit.
  { unfold Init. induction providers as [|q qs IH]; intros b Hb; simpl;
      [done|]. by apply IH, bar_ok_ProviderAdded. }
  pose proof (Hinit bar Hok) as Hok'. fold bar' in Hok'.
  split; [done|]. destruct Hok' as (Hnodup & Hperm & _).
  split.
  - intros p. rewrite Hperm. apply Init_buttons.
  - by rewrite Hperm.
Qed.

End ProviderTheorems.

(** ** Worked examples for the further properties *)

Lemma money_equivalent_sym :
  equivalent ascii_foldCase money_library money_lastfm.
Proof. vm_compute. repeat split. Defined.

Lemma showing_reachable (order : list QString) :
  reachable latin1_isSpace ascii_foldCase lessThan_quality_arrival
    (showing order).
Proof.
  unfold showing, AddResults_example, searching.
  apply reach_timeout, reach_AddResults, reach_TextEdited, reach_new.
Defined.

(** The same widget once the selection has moved to its row and the
    tooltip has come up with the second alternative active. *)
Lemma tooltip_showing_reachable :
  let w := UpdateTooltip (Some (ProxyB, 0%nat)) 1 (showing ["library"]) in
  reachable latin1_isSpace ascii_foldCase lessThan_quality_arrival w
  /\ tooltip_ w = Some (mkTooltip true 1)
  /\ LoadTracks_result_index w = 1.
Proof.
  split; [apply reach_UpdateTooltip, showing_reachable|].
  vm_compute. by split.
Qed.

Lemma empty_bar_ok : bar_ok empty_bar.
Proof.
  unfold bar_ok, empty_bar. simpl.
  split; [apply NoDup_nil_2|]. split; [reflexivity|]. split; [reflexivity|].
  apply SSorted_nil.
Defined.

Lemma CanCombineResults_equivalence_witness :
  CanCombineResults ascii_foldCase [] money_library money_lastfm
  <> CannotCombine.
Proof.
  destruct (CanCombineResults_equivalence ascii_foldCase ["library"] []
              money_lastfm money_library money_lastfm) as (_ & Hsym & _).
  apply Hsym. vm_compute. discriminate.
Defined.

Lemma CanCombineResults_preference_order_witness :
  CanCombineResults ascii_foldCase ["library"] money_lastfm money_library
  = RightPreferred
  /\ CanCombineResults ascii_foldCase ["library"] money_library money_lastfm
     = LeftPreferred.
Proof.
  destruct (CanCombineResults_preference_order ascii_foldCase ["library"]
              money_lastfm money_library) as (Hlt & _).
  - vm_compute. discriminate.
  - apply Hlt. vm_compute. reflexivity.
Defined.

Lemma AddResults_without_combining_witness :
  let w := TextEdited latin1_isSpace "dark side" 7
             (GlobalSearchWidget_new false ["library"]) in
  rowsOf (AddResults_example 7 [money_library; money_lastfm] w)
    (current_model_ w)
  = [item_of money_library 0; item_of money_lastfm 0].
Proof.
  exact (AddResults_without_combining ascii_foldCase lessThan_quality_arrival
           no_cached_pixmap [money_library; money_lastfm]
           (TextEdited latin1_isSpace "dark side" 7
              (GlobalSearchWidget_new false ["library"]))
           eq_refl).
Defined.

Lemma TextEdited_keeps_visible_results_witness :
  rowsOf (TextEdited latin1_isSpace "wish you" 8 (showing ["library"]))
    (front_model_ (TextEdited latin1_isSpace "wish you" 8 (showing ["library"])))
  = rowsOf (showing ["library"]) (front_model_ (showing ["library"])).
Proof.
  apply (TextEdited_keeps_visible_results latin1_isSpace "wish you" 8
           (showing ["library"])).
  - vm_compute. lia.
  - vm_compute. discriminate.
Defined.

Lemma search_then_cutover_witness :
  let w3 := swap_models_timer_timeout
              (AddResults_example 7 [money_library]
                 (TextEdited latin1_isSpace "dark side" 7
                    (GlobalSearchWidget_new true ["library"]))) in
  all_alternatives (rowsOf w3 (front_model_ w3)) ≡ₚ [money_library].
Proof.
  apply (search_then_cutover latin1_isSpace ascii_foldCase
           lessThan_quality_arrival no_cached_pixmap "dark side" 7
           [money_library] (GlobalSearchWidget_new true ["library"])).
  vm_compute. lia.
Defined.

Lemma reachable_pointers_witness :
  view_model (view_ (showing ["library"])) = front_proxy_ (showing ["library"]).
Proof.
  apply (reachable_pointers latin1_isSpace ascii_foldCase
           lessThan_quality_arrival (showing ["library"])).
  apply showing_reachable.
Defined.

Lemma reachable_popup_has_rows_witness :
  (0 < length (rowsOf (showing ["library"])
                 (front_model_ (showing ["library"]))))%nat.
Proof.
  apply (reachable_popup_has_rows latin1_isSpace ascii_foldCase
           lessThan_quality_arrival (showing ["library"])).
  - apply showing_reachable.
  - reflexivity.
Defined.

Lemma reachable_records_well_formed_witness :
  Role_AllResults (item_of money_library 0) !! 0%nat
  = Some (Role_PrimaryResult (item_of money_library 0)).
Proof.
  apply (reachable_records_well_formed latin1_isSpace ascii_foldCase
           lessThan_quality_arrival (showing ["library"]) ModelB 0
           (item_of money_library 0)).
  - apply showing_reachable.
  - reflexivity.
Defined.

Lemma arrival_numbers_within_search_witness :
  let w' := fold_left
              (search_event ascii_foldCase lessThan_quality_arrival
                 no_cached_pixmap)
              [BatchArrives 7 [money_library]; TimerExpires;
               BatchArrives 7 [time_library]]
              (TextEdited latin1_isSpace "dark side" 7
                 (GlobalSearchWidget_new true ["library"])) in
  0 <= Role_OrderArrived (item_of time_library 1) < order_arrived_counter_ w'
  /\ order_arrived_counter_ w' <= Z.of_nat 3.
Proof.
  apply (arrival_numbers_within_search latin1_isSpace ascii_foldCase
           lessThan_quality_arrival no_cached_pixmap "dark side" 7
           [BatchArrives 7 [money_library]; TimerExpires;
            BatchArrives 7 [time_library]]
           (GlobalSearchWidget_new true ["library"]) 1
           (item_of time_library 1)).
  - vm_compute. lia.
  - vm_compute. discriminate.
  - vm_compute. reflexivity.
Defined.

Lemma AddResults_keeps_every_result_witness :
  order_arrived_counter_
    (AddResults_example 7 [money_library] (searching ["library"]))
  = 1.
Proof.
  destruct (AddResults_keeps_every_result ascii_foldCase
              lessThan_quality_arrival no_cached_pixmap [money_library]
              (searching ["library"])) as (_ & _ & _ & Hnext & _).
  apply Hnext. vm_compute. split; [discriminate|reflexivity].
Defined.

Lemma reachable_LazyLoadArt_defined_witness :
  exists w',
    LazyLoadArt lessThan_quality_arrival (Some (ProxyB, 0%nat)) 42
      (showing ["library"]) = Some w'.
Proof.
  apply (reachable_LazyLoadArt_defined latin1_isSpace ascii_foldCase
           lessThan_quality_arrival (Some (ProxyB, 0%nat)) 42
           (showing ["library"])).
  apply showing_reachable.
Defined.

Lemma reachable_LoadTracks_primary_witness :
  engine_ (AddCurrent lessThan_quality_arrival None 9 (showing ["library"]))
  = engine_ (showing ["library"]) ++ [LoadTracksAsync money_library].
Proof.
  apply (reachable_LoadTracks_primary latin1_isSpace ascii_foldCase
           lessThan_quality_arrival (Some add_) None 9 (showing ["library"])
           ProxyB 0 (item_of money_library 0)).
  - apply showing_reachable.
  - reflexivity.
  - reflexivity.
  - reflexivity.
Defined.

Lemma LazyLoadArt_not_repeated_witness :
  exists w1,
    LazyLoadArt lessThan_quality_arrival (Some (ProxyB, 0%nat)) 42
      (showing ["library"]) = Some w1
    /\ LazyLoadArt lessThan_quality_arrival (Some (ProxyB, 0%nat)) 43 w1
       = Some w1.
Proof.
  destruct (LazyLoadArt_not_repeated lessThan_quality_arrival ProxyB 0 0
              (item_of money_library 0) 42 (showing ["library"]))
    as (w1 & H1 & _ & Hagain); try reflexivity.
  exists w1. split; [exact H1|].
  apply (Hagain 0%nat (setLazyLoadingArt (item_of money_library 0))).
  vm_compute in H1. injection H1 as <-. vm_compute. reflexivity.
Defined.

Lemma ArtLoaded_answers_request_witness :
  exists w1 w2,
    LazyLoadArt lessThan_quality_arrival (Some (ProxyB, 0%nat)) 42
      (showing ["library"]) = Some w1
    /\ ArtLoaded 42 (PixmapData 1) w1 = Some w2
    /\ map DecorationRole (rowsOf w2 ModelB) = [Some (PixmapData 1)].
Proof.
  destruct (ArtLoaded_answers_request lessThan_quality_arrival ProxyB 0 0
              (item_of money_library 0) 42 (PixmapData 1) (PixmapData 2)
              (showing ["library"]))
    as (w1 & w2 & H1 & H2 & Hrows & _); try reflexivity.
  exists w1, w2. split; [exact H1|]. split; [exact H2|].
  rewrite (Hrows ModelB). reflexivity.
Defined.

Lemma TracksLoaded_once_witness :
  let w := AddAndPlayCurrent lessThan_quality_arrival None 9
             (showing ["library"]) in
  snd (TracksLoaded 9 (Some plain_mime_data) w)
  = Some (mkMimeData false true true false false).
Proof.
  apply (TracksLoaded_once 9 (Some add_and_play_) (Some plain_mime_data) None
           (AddAndPlayCurrent lessThan_quality_arrival None 9
              (showing ["library"]))).
  reflexivity.
Defined.

Lemma activation_marks_payload_witness :
  exists m',
    snd (TracksLoaded 9 (Some plain_mime_data)
           (ReplaceAndPlayCurrent lessThan_quality_arrival None 9
              (showing ["library"]))) = Some m'
    /\ clear_first_ m' = true.
Proof.
  destruct (activation_marks_payload lessThan_quality_arrival
              (Some replace_and_play_) None 9 (showing ["library"]) ProxyB 0
              money_library plain_mime_data)
    as (m' & Hm & _ & _ & _ & _ & Hclear).
  - reflexivity.
  - vm_compute. discriminate.
  - reflexivity.
  - exists m'. split; [exact Hm|]. rewrite Hclear. reflexivity.
Defined.

Lemma default_settings_prefer_library_witness :
  combine_new_item ascii_foldCase lessThan_quality_arrival
    (provider_order_
       (ReloadSettings (mkSettings None None)
          (GlobalSearchWidget_new true [])))
    [item_of money_lastfm 0; item_of money_library 1]
  = [setAllResults [money_library; money_lastfm] (item_of money_library 1)].
Proof.
  destruct (default_settings_prefer_library ascii_foldCase
              lessThan_quality_arrival (mkSettings None None)
              (GlobalSearchWidget_new true [])
              (item_of money_library 1) (item_of money_lastfm 0))
    as (_ & _ & H).
  - reflexivity.
  - reflexivity.
  - vm_compute. discriminate.
  - exact money_equivalent_sym.
  - exact H.
Defined.

Lemma ProviderAdded_keeps_bar_witness :
  bar_ok (ProviderAdded always_enabled library empty_bar).
Proof.
  apply (ProviderAdded_keeps_bar always_enabled library empty_bar).
  exact empty_bar_ok.
Defined.

Lemma ProviderRemoved_undoes_ProviderAdded_witness :
  ProviderRemoved lastfm (ProviderAdded always_enabled lastfm empty_bar)
  = empty_bar.
Proof.
  apply (ProviderRemoved_undoes_ProviderAdded always_enabled lastfm empty_bar).
  - exact empty_bar_ok.
  - vm_compute. apply not_elem_of_nil.
Defined.

Lemma ProviderRemoved_keeps_bar_witness :
  bar_ok (ProviderRemoved spotify empty_bar).
Proof.
  apply (ProviderRemoved_keeps_bar spotify empty_bar).
  exact empty_bar_ok.
Defined.

Lemma Init_registers_every_provider_witness :
  bar_ok (Init always_enabled [spotify; library; lastfm; library] empty_bar).
Proof.
  apply (Init_registers_every_provider always_enabled
           [spotify; library; lastfm; library] empty_bar).
  exact empty_bar_ok.
Defined.

(** The bar [Init] builds from an unsorted roster with a repeated
    provider. *)
Lemma Init_example :
  Init always_enabled [spotify; library; lastfm; library] empty_bar
  = mkProviderBar [spotify; library; lastfm]
      [ProviderButton lastfm true; ProviderButton library true;
       ProviderButton spotify true; LayoutSpacer]
      [library].
Proof. vm_compute. reflexivity. Qed.
